(** * Entity system of jsfw: entities, components, entity sets and the flush boundary

    A shallow embedding of [EntitySystem] (the registry of entities and
    components) and the proofs of its specified properties.

    Conventions of the embedding.
    - A JavaScript value is a [value]; the tests of the source
      ([if (x)], [!x]) are tests of [truthy].
    - An entity handle is an object: [eref] is its identity (what [===]
      compares) and [eid] its [id] field.
    - The per-entity component lists ([{}] objects) live in a [heap]; the two
      registries [entityComponentMap] and [removedEntityComponentMap] hold
      references into it, so that one list can be reached from both.
    - The dictionaries of the source are plain [{}] objects, which inherit
      the members of [Object.prototype]. The embedding reads own properties
      only, so it follows the source for component names outside
      [Object.prototype] ([own_name]); under an inherited name such as
      ["constructor"] the source reads the inherited member and
      [setComponent] and [removeComponent] end in a TypeError. Every theorem
      whose statement depends on what is read under a component name, or on a
      call with a component name returning, has [own_name] as a hypothesis.
    - A component name is not one of the entity's own fields [id] and
      [name], and the id counter stays in the range where JavaScript numbers
      are exact integers.
    - An entity set is the sequence of calls the registry has made on it.
    - [getEntityByName] reads the [name] field that the entity class
      maintains and is not part of the embedding.
    - The helpers of the component base class work on plain objects
      ([props]) and arrays (lists of values); [Component.copy], a round trip
      through JSON, is not part of the embedding. *)

From stdpp Require Import gmap strings list fin_maps sorting.
From Stdlib Require Import ZArith.

(** ** Values *)

Inductive value :=
  | VUndefined
  | VNull
  | VBool (b : bool)
  | VNum (z : Z)
  | VStr (s : string)
  | VObj (r : nat).

(** JavaScript's ToBoolean. *)
Definition truthy (v : value) : bool :=
  match v with
  | VUndefined | VNull => false
  | VBool b => b
  | VNum z => negb (Z.eqb z 0)
  | VStr EmptyString => false
  | VStr _ => true
  | VObj _ => true
  end.

(** A plain object used as a dictionary from names to values. *)
Abbreviation props := (gmap string value).

(** The members of [Object.prototype] (ECMAScript, Annex B included), which
    every plain object inherits. *)
Definition object_prototype_names : list string :=
  ["constructor"; "hasOwnProperty"; "isPrototypeOf"; "propertyIsEnumerable";
   "toLocaleString"; "toString"; "valueOf"; "__proto__";
   "__defineGetter__"; "__defineSetter__";
   "__lookupGetter__"; "__lookupSetter__"].

(** A name that a plain object has as an own property or not at all. *)
Definition own_name (name : string) : bool :=
  negb (existsb (String.eqb name) object_prototype_names).

(** [o[name]] for an [own_name]: the own property, and [undefined] when it
    is missing. (Under a member of [Object.prototype] a missing property
    reads as the inherited member; that reading is not modelled, and the
    theorems that read a component name assume [own_name].) *)
Definition get_prop (o : props) (name : string) : value :=
  default VUndefined (o !! name).

(** ** Entities *)

(** Modelled from the spec: the [Entity] class (./entity) is imported by the
    registry but its file is not among the sources; the spec describes it as
    an identity carrier with a stable [id] that accepts arbitrary named field
    assignment. [eref] is the identity of the object, [eid] its id. *)
Record Entity := mkEntity { eref : nat; eid : nat }.

(** [a === b] on two entity objects. *)
Definition same_object (a b : Entity) : bool := Nat.eqb (eref a) (eref b).

(** ** Entity sets *)

(** The calls an entity set receives from the registry. *)
Inductive note :=
  | NAdd (e : Entity)
  | NChange (e : Entity)
  | NRemove (e : Entity)
  | NFlush.

(** Modelled from the spec: the [EntitySet] class (./entity-set) is imported
    by the registry but its file is not among the sources. The registry only
    ever constructs a set and calls [add], [change], [remove] and [flush] on
    it, so a set is represented by the calls it has received, latest first.
    [contains] is the membership the specified scenarios speak of: an entity
    (identified by its id) belongs to the set when it has been added and not
    removed since. *)
Module EntitySet.
Abbreviation t := (list note).
Definition new : t := [].
Definition add (e : Entity) (es : t) : t := NAdd e :: es.
Definition change (e : Entity) (es : t) : t := NChange e :: es.
Definition remove (e : Entity) (es : t) : t := NRemove e :: es.
Definition flush (es : t) : t := NFlush :: es.

Fixpoint contains (id : nat) (es : t) : bool :=
  match es with
  | [] => false
  | NAdd e :: rest => if Nat.eqb (eid e) id then true else contains id rest
  | NRemove e :: rest => if Nat.eqb (eid e) id then false else contains id rest
  | NChange _ :: rest => contains id rest
  | NFlush :: rest => contains id rest
  end.
End EntitySet.

(** ** The state of the entity system *)

Record State := mkState {
  isLazySets : bool;
  counter : nat;
  entities : gmap nat Entity;
  entityComponentMap : gmap nat nat;
  removedEntityComponentMap : gmap nat nat;
  entitySets : gmap string (list note);
  (* the component-list objects, addressed by reference *)
  heap : list props;
  (* the next fresh entity object, and the dynamic fields of entity objects *)
  nextRef : nat;
  fields : gmap nat props
}.

Definition set_isLazySets (b : bool) (s : State) : State :=
  mkState b (counter s) (entities s) (entityComponentMap s)
    (removedEntityComponentMap s) (entitySets s) (heap s) (nextRef s) (fields s).
Definition set_counter (c : nat) (s : State) : State :=
  mkState (isLazySets s) c (entities s) (entityComponentMap s)
    (removedEntityComponentMap s) (entitySets s) (heap s) (nextRef s) (fields s).
Definition set_entities (m : gmap nat Entity) (s : State) : State :=
  mkState (isLazySets s) (counter s) m (entityComponentMap s)
    (removedEntityComponentMap s) (entitySets s) (heap s) (nextRef s) (fields s).
Definition set_entityComponentMap (m : gmap nat nat) (s : State) : State :=
  mkState (isLazySets s) (counter s) (entities s) m
    (removedEntityComponentMap s) (entitySets s) (heap s) (nextRef s) (fields s).
Definition set_removedEntityComponentMap (m : gmap nat nat) (s : State) : State :=
  mkState (isLazySets s) (counter s) (entities s) (entityComponentMap s)
    m (entitySets s) (heap s) (nextRef s) (fields s).
Definition set_entitySets (m : gmap string (list note)) (s : State) : State :=
  mkState (isLazySets s) (counter s) (entities s) (entityComponentMap s)
    (removedEntityComponentMap s) m (heap s) (nextRef s) (fields s).
Definition set_heap (h : list props) (s : State) : State :=
  mkState (isLazySets s) (counter s) (entities s) (entityComponentMap s)
    (removedEntityComponentMap s) (entitySets s) h (nextRef s) (fields s).
Definition set_nextRef (r : nat) (s : State) : State :=
  mkState (isLazySets s) (counter s) (entities s) (entityComponentMap s)
    (removedEntityComponentMap s) (entitySets s) (heap s) r (fields s).
Definition set_fields (f : gmap nat props) (s : State) : State :=
  mkState (isLazySets s) (counter s) (entities s) (entityComponentMap s)
    (removedEntityComponentMap s) (entitySets s) (heap s) (nextRef s) f.

(** The object a reference points to. References handed out by the
    allocator never dangle; the default only makes the function total. *)
Definition obj_at (h : list props) (l : nat) : props := default ∅ (h !! l).

(** [new EntitySystem()]. *)
Definition EntitySystem : State :=
  mkState false 0 ∅ ∅ ∅ ∅ [] 0 ∅.

(** ** Operations *)

Definition generateUUID (s : State) : nat * State :=
  let current := counter s in
  (current, set_counter (S (counter s)) s).

(** [createEntity(id)]: the argument is accepted and never read. *)
Definition createEntity (id : option value) (s : State) : Entity * State :=
  let '(uuid, s1) := generateUUID s in
  let entity := mkEntity (nextRef s1) uuid in
  let s2 := set_nextRef (S (nextRef s1)) s1 in
  let s3 := set_entities (<[eid entity := entity]> (entities s2)) s2 in
  let s4 := set_entityComponentMap
              (<[eid entity := length (heap s3)]> (entityComponentMap s3))
              (set_heap (heap s3 ++ [∅]) s3) in
  (entity, s4).

Definition hasEntity (s : State) (entity : Entity) : bool :=
  match entities s !! eid entity with
  | None => false
  | Some ent => same_object ent entity
  end.

(** [getEntityByID(id)]; [None] is [null]. *)
Definition getEntityByID (s : State) (id : nat) : option Entity :=
  entities s !! id.

Definition removeEntity (entity : Entity) (s : State) : State :=
  match entities s !! eid entity with
  | None => s
  | Some storedEntity =>
      (* removedEntityComponentMap[entity.id] = entityComponentMap[entity.id];
         an [undefined] right-hand side leaves an entry that reads as absent *)
      let removed :=
        match entityComponentMap s !! eid entity with
        | Some l => <[eid entity := l]> (removedEntityComponentMap s)
        | None => delete (eid entity) (removedEntityComponentMap s)
        end in
      let s1 := set_removedEntityComponentMap removed s in
      let s2 := set_entitySets (EntitySet.remove entity <$> entitySets s1) s1 in
      set_entities (delete (eid entity) (entities s2)) s2
  end.

(** The second half of [getComponent]: the removed version. Like
    [getComponent] itself it follows the source for an [own_name]; under a
    member of [Object.prototype] the source returns the inherited member. *)
Definition getComponent_removed (s : State) (entity : Entity)
    (componentName : string) : value :=
  match removedEntityComponentMap s !! eid entity with
  | Some l =>
      let componentList := obj_at (heap s) l in
      if truthy (get_prop componentList componentName)
      then get_prop componentList componentName
      else VNull
  | None => VNull
  end.

Definition getComponent (s : State) (entity : Entity)
    (componentName : string) : value :=
  match entityComponentMap s !! eid entity with
  | Some l =>
      let componentList := obj_at (heap s) l in
      if truthy (get_prop componentList componentName)
      then get_prop componentList componentName
      else getComponent_removed s entity componentName
  | None => getComponent_removed s entity componentName
  end.

(** [components[componentName] = component] on the list at [l]. *)
Definition store_component (l : nat) (componentName : string)
    (component : value) (s : State) : State :=
  set_heap (<[l := <[componentName := component]> (obj_at (heap s) l)]> (heap s)) s.

(** The tail of [setComponent], once [entitySet] is the set of the name:
    notify it and commit the component. [components] is what
    [entityComponentMap[entity.id]] read; on [undefined] the property read
    throws a TypeError, which is [None]. [setComponent] follows the source
    for an [own_name]; under a member of [Object.prototype] the source takes
    the inherited member for the set and ends in a TypeError. *)
Definition update_set (entity : Entity) (componentName : string)
    (component : value) (components : option nat) (entitySet : list note)
    (s : State) : option State :=
  match components with
  | None => None
  | Some l =>
      let entitySet' :=
        if truthy (get_prop (obj_at (heap s) l) componentName)
        then EntitySet.change entity entitySet
        else EntitySet.add entity entitySet in
      Some (store_component l componentName component
              (set_entitySets (<[componentName := entitySet']> (entitySets s)) s))
  end.

Definition setComponent (entity : Entity) (componentName : string)
    (component : value) (s : State) : option State :=
  match entities s !! eid entity with
  | None => Some s
  | Some _ =>
      let components := entityComponentMap s !! eid entity in
      (* entity[componentName] = component *)
      let s1 := set_fields
                  (<[eref entity :=
                       <[componentName := component]>
                         (default ∅ (fields s !! eref entity))]> (fields s)) s in
      match entitySets s1 !! componentName with
      | None =>
          if isLazySets s1 then
            match components with
            | None => None
            | Some l => Some (store_component l componentName component s1)
            end
          else
            let entitySet := EntitySet.new in
            let s2 := set_entitySets
                        (<[componentName := entitySet]> (entitySets s1)) s1 in
            update_set entity componentName component components entitySet s2
      | Some entitySet =>
          update_set entity componentName component components entitySet s1
      end
  end.

(** [hasComponent] returns [false] or whatever the component list holds
    under the name, not a boolean. It follows the source for an [own_name];
    under a member of [Object.prototype] the source returns the inherited
    member. *)
Definition hasComponent (s : State) (entity : Entity)
    (componentName : string) : value :=
  match entityComponentMap s !! eid entity with
  | None => VBool false
  | Some l => get_prop (obj_at (heap s) l) componentName
  end.

(** [removeComponent] follows the source for an [own_name]; under a member
    of [Object.prototype] the source stages the inherited member and ends in
    a TypeError at the call of [remove]. *)
Definition removeComponent (entity : Entity) (componentName : string)
    (s : State) : State :=
  match entityComponentMap s !! eid entity with
  | None => s
  | Some components =>
      (* if (!removedEntityComponentMap[entity.id]) ... = {} *)
      let '(removed, s1) :=
        match removedEntityComponentMap s !! eid entity with
        | Some r => (r, s)
        | None =>
            (length (heap s),
             set_removedEntityComponentMap
               (<[eid entity := length (heap s)]> (removedEntityComponentMap s))
               (set_heap (heap s ++ [∅]) s))
        end in
      (* removed[componentName] = components[componentName] *)
      let s2 := store_component removed componentName
                  (get_prop (obj_at (heap s1) components) componentName) s1 in
      (* delete entityComponentMap[entity.id][componentName] *)
      let s3 := set_heap
                  (<[components :=
                       delete componentName (obj_at (heap s2) components)]>
                     (heap s2)) s2 in
      match entitySets s3 !! componentName with
      | Some entitySet =>
          set_entitySets
            (<[componentName := EntitySet.remove entity entitySet]>
               (entitySets s3)) s3
      | None => s3
      end
  end.

(** The keys of the entity table in the order [for (key in entities)]
    visits them: integer keys, ascending. *)
Definition entity_keys (m : gmap nat Entity) : list nat :=
  merge_sort le (fst <$> map_to_list m).

(** One round of the back-fill loop of [getEntities]. *)
Definition backfill_step (s : State) (componentName : string)
    (entitySet : list note) (key : nat) : list note :=
  match entities s !! key with
  | Some ent =>
      if truthy (hasComponent s ent componentName)
      then EntitySet.add ent entitySet
      else entitySet
  | None => entitySet
  end.

(** [getEntities] follows the source for an [own_name]; under a member of
    [Object.prototype] the source returns the inherited member and creates no
    set. *)
Definition getEntities (componentName : string) (s : State)
    : list note * State :=
  match entitySets s !! componentName with
  | Some entitySet => (entitySet, s)
  | None =>
      let entitySet :=
        foldl (backfill_step s componentName) EntitySet.new
          (entity_keys (entities s)) in
      (entitySet,
       set_entitySets (<[componentName := entitySet]> (entitySets s)) s)
  end.

Definition getAllEntities (s : State) : gmap nat Entity := entities s.

Definition flushChanges (s : State) : State :=
  set_removedEntityComponentMap ∅
    (set_entitySets (EntitySet.flush <$> entitySets s) s).

(** One round of the loop of [removeAllEntities]; a key deleted before it is
    reached is not visited. *)
Definition removeAll_step (s : State) (key : nat) : State :=
  match entities s !! key with
  | Some ent => removeEntity ent s
  | None => s
  end.

Definition removeAllEntities (s : State) : State :=
  foldl removeAll_step s (entity_keys (entities s)).

(** ** Programs: sequences of calls on one entity system *)

Inductive op :=
  | OpSetLazy (b : bool)
  | OpCreateEntity (id : option value)
  | OpSetComponent (e : Entity) (n : string) (v : value)
  | OpRemoveComponent (e : Entity) (n : string)
  | OpRemoveEntity (e : Entity)
  | OpGetEntities (n : string)
  | OpFlushChanges
  | OpRemoveAllEntities.

(** [None]: the call threw. *)
Definition exec (o : op) (s : State) : option State :=
  match o with
  | OpSetLazy b => Some (set_isLazySets b s)
  | OpCreateEntity id => Some (snd (createEntity id s))
  | OpSetComponent e n v => setComponent e n v s
  | OpRemoveComponent e n => Some (removeComponent e n s)
  | OpRemoveEntity e => Some (removeEntity e s)
  | OpGetEntities n => Some (snd (getEntities n s))
  | OpFlushChanges => Some (flushChanges s)
  | OpRemoveAllEntities => Some (removeAllEntities s)
  end.

(** The component name of a call, if it has one, is an [own_name]. *)
Definition op_own_name (o : op) : bool :=
  match o with
  | OpSetComponent _ n _ | OpRemoveComponent _ n | OpGetEntities n => own_name n
  | _ => true
  end.

Fixpoint run (ops : list op) (s : State) : option State :=
  match ops with
  | [] => Some s
  | o :: rest =>
      match exec o s with
      | Some s' => run rest s'
      | None => None
      end
  end.

(** The states a program can bring a new entity system into. *)
Definition reachable (s : State) : Prop :=
  ∃ ops, run ops EntitySystem = Some s.

(** The ids [createEntity] hands out along a program, in call order. *)
Fixpoint created_ids (ops : list op) (s : State) : list nat :=
  match ops with
  | [] => []
  | o :: rest =>
      match exec o s with
      | Some s' =>
          match o with
          | OpCreateEntity id => eid (fst (createEntity id s)) :: created_ids rest s'
          | _ => created_ids rest s'
          end
      | None => []
      end
  end.

(** ** The lookup of [getComponent], in the words of its description *)

(** The value a registry holds for an id under a name, where a value that
    is not truthy counts as absent. *)
Definition truthy_entry (registry : gmap nat nat) (h : list props)
    (id : nat) (name : string) : option value :=
  match registry !! id with
  | Some l =>
      match obj_at h l !! name with
      | Some v => if truthy v then Some v else None
      | None => None
      end
  | None => None
  end.

(** The active value if there is one, else the stale value if there is one,
    else [null]. *)
Definition getComponent_spec (s : State) (entity : Entity)
    (componentName : string) : value :=
  match truthy_entry (entityComponentMap s) (heap s) (eid entity) componentName with
  | Some v => v
  | None =>
      match truthy_entry (removedEntityComponentMap s) (heap s) (eid entity)
              componentName with
      | Some v => v
      | None => VNull
      end
  end.

(** ** Sample runs *)

(** The state a program leaves a new entity system in. *)
Definition after (ops : list op) : State :=
  default EntitySystem (run ops EntitySystem).

(** The first entity a new system creates, and another object with its id. *)
Definition e0 : Entity := mkEntity 0 0.
Definition e0_stale : Entity := mkEntity 9 0.

(** A component object. *)
Definition position : value := VObj 100.

(** One entity carrying a position, in eager mode. *)
Definition prog_positioned : list op :=
  [OpCreateEntity None; OpSetComponent e0 "Position" position].

(** A component that is not truthy set over a removed one. *)
Definition prog_zero_over_stale : list op :=
  [OpCreateEntity None;
   OpSetComponent e0 "Position" position;
   OpRemoveComponent e0 "Position";
   OpSetComponent e0 "Position" (VNum 0)].

(** An entity with a position is removed and the tick is flushed. *)
Definition prog_removed_flushed : list op :=
  [OpCreateEntity None;
   OpSetComponent e0 "Position" position;
   OpRemoveEntity e0;
   OpFlushChanges].

(** An entity is created and removed. *)
Definition prog_created_removed : list op :=
  [OpCreateEntity None; OpRemoveEntity e0].

(** An entity with a position is removed. *)
Definition prog_removed : list op :=
  [OpCreateEntity None;
   OpSetComponent e0 "Position" position;
   OpRemoveEntity e0].

(** One entity carrying the number 0 as its position. *)
Definition prog_zero : list op :=
  [OpCreateEntity None; OpSetComponent e0 "Position" (VNum 0)].

(** Lazy sets switched on, then one entity. *)
Definition prog_lazy : list op :=
  [OpSetLazy true; OpCreateEntity None].

(** Another component object. *)
Definition velocity : value := VObj 200.

(** ** The invariant of reachable states *)

Record Inv (s : State) : Prop := mkInv {
  (* an entity is stored under its own id *)
  inv_id : ∀ k ent, entities s !! k = Some ent → eid ent = k;
  (* an active entity has a component list *)
  inv_map : ∀ k, is_Some (entities s !! k) →
            is_Some (entityComponentMap s !! k);
  (* references point into the heap *)
  inv_active_loc : ∀ k l, entityComponentMap s !! k = Some l →
                   l < length (heap s);
  inv_removed_loc : ∀ k l, removedEntityComponentMap s !! k = Some l →
                    l < length (heap s);
  (* the removed list of an active entity is not its active list *)
  inv_own : ∀ k l, is_Some (entities s !! k) →
            entityComponentMap s !! k = Some l →
            removedEntityComponentMap s !! k ≠ Some l;
  (* ids in use were handed out by the counter *)
  inv_below : ∀ k, is_Some (entities s !! k) → k < counter s;
  inv_map_below : ∀ k, is_Some (entityComponentMap s !! k) → k < counter s
}.

(** ** Components: the optional base class *)



(** [Component.copyField]. *)
Definition copyField (newValue defaultValue : value) : value :=
  match newValue with
  | VNull | VUndefined => defaultValue
  | _ => newValue
  end.

(** [Component.copyPrimitiveArray]; an array is the list of its elements,
    and [None] is a missing ([null] or [undefined]) argument. *)
Definition copyPrimitiveArray (newArray arrayToCopy : option (list value))
    : list value :=
  let arr := match newArray with Some a => a | None => [] end in
  match arrayToCopy with
  | Some c => arr ++ c
  | None => arr
  end.

(** ** Observations on the two registries *)

(** What the active component list of an id holds under a name. *)
Definition active_value (s : State) (id : nat) (name : string)
    : option value :=
  match entityComponentMap s !! id with
  | Some l => obj_at (heap s) l !! name
  | None => None
  end.

(** What the removed registry holds for an id under a name. *)
Definition staged_value (s : State) (id : nat) (name : string)
    : option value :=
  match removedEntityComponentMap s !! id with
  | Some l => obj_at (heap s) l !! name
  | None => None
  end.

(** The stored entities in the order [for (key in entities)] visits them. *)
Definition entity_list (m : gmap nat Entity) : list Entity :=
  omap (λ k, m !! k) (entity_keys m).

(** Programs that leave [isLazySets] alone, and the states reached with the
    switch set once, before anything else. *)
Definition keeps_mode (o : op) : bool :=
  match o with
  | OpSetLazy _ => false
  | _ => true
  end.

Definition reachable_in_mode (b : bool) (s : State) : Prop :=
  ∃ ops, forallb keeps_mode ops = true
         ∧ run ops (set_isLazySets b EntitySystem) = Some s.

(** ** Separation of the component lists *)

Record Sep (s : State) : Prop := mkSep {
  (* two ids never share an active list *)
  sep_active : ∀ i j l, entityComponentMap s !! i = Some l →
               entityComponentMap s !! j = Some l → i = j;
  (* a removed list is the active list of its own id at most *)
  sep_removed : ∀ i j l, removedEntityComponentMap s !! i = Some l →
                entityComponentMap s !! j = Some l → i = j;
  sep_removed_inj : ∀ i j l, removedEntityComponentMap s !! i = Some l →
                    removedEntityComponentMap s !! j = Some l → i = j;
  (* an id staged in the removed registry has an active list *)
  sep_removed_map : ∀ i, is_Some (removedEntityComponentMap s !! i) →
                    is_Some (entityComponentMap s !! i)
}.

(** ** Entity sets against the registry *)

(** A set holds only active entities that have the name in their list. *)
Definition sets_sound (s : State) : Prop :=
  ∀ n es id, entitySets s !! n = Some es →
    EntitySet.contains id es = true →
    is_Some (entities s !! id) ∧ is_Some (active_value s id n).

(** A set, once it exists, holds every active entity with a truthy value
    under its name. *)
Definition sets_complete (s : State) : Prop :=
  ∀ n es id v, entitySets s !! n = Some es →
    is_Some (entities s !! id) →
    active_value s id n = Some v → truthy v = true →
    EntitySet.contains id es = true.

(** In eager mode a name without a set is in no component list. *)
Definition eager_cover (s : State) : Prop :=
  isLazySets s = false →
  ∀ n id, entitySets s !! n = None → active_value s id n = None.

(** What [getComponent] makes of the two observations: the active value
    when truthy, else the staged one when truthy, else [null]. *)
Definition stale_or_null (r : option value) : value :=
  match r with
  | Some v => if truthy v then v else VNull
  | None => VNull
  end.

Definition pick (a r : option value) : value :=
  match a with
  | Some v => if truthy v then v else stale_or_null r
  | None => stale_or_null r
  end.

(** Everything a run in one mode keeps. *)
Definition settled (b : bool) (s : State) : Prop :=
  Inv s ∧ Sep s ∧ sets_complete s ∧ eager_cover s ∧ isLazySets s = b.

Lemma Inv_EntitySystem : Inv EntitySystem.
Proof.
  split; simpl; intros *; rewrite ?lookup_empty; try done;
    by intros [? ?].
Qed.

Lemma Inv_set_isLazySets b s : Inv s → Inv (set_isLazySets b s).
Proof. intros [H1 H2 H3 H4 H5 H6 H7]. by split. Qed.

Lemma Inv_createEntity id s : Inv s → Inv (snd (createEntity id s)).
Proof.
  intros [H1 H2 H3 H4 H5 H6 H7]. split; simpl; intros k.
  - intros ent. destruct (decide (counter s = k)) as [<-|Hne].
    + rewrite lookup_insert_eq. by intros [= <-].
    + rewrite lookup_insert_ne by done. apply H1.
  - destruct (decide (counter s = k)) as [<-|Hne].
    + rewrite !lookup_insert_eq. eauto.
    + rewrite !lookup_insert_ne by done. apply H2.
  - intros l. rewrite length_app. simpl.
    destruct (decide (counter s = k)) as [<-|Hne].
    + rewrite lookup_insert_eq. intros [= <-]. lia.
    + rewrite lookup_insert_ne by done. intros Hl%H3. lia.
  - intros l Hl%H4. rewrite length_app. simpl. lia.
  - intros l. destruct (decide (counter s = k)) as [<-|Hne].
    + rewrite !lookup_insert_eq. intros _ [= <-] Hl%H4. lia.
    + rewrite !lookup_insert_ne by done. apply H5.
  - destruct (decide (counter s = k)) as [<-|Hne].
    + lia.
    + rewrite lookup_insert_ne by done. intros Hk%H6. lia.
  - destruct (decide (counter s = k)) as [<-|Hne].
    + lia.
    + rewrite lookup_insert_ne by done. intros Hk%H7. lia.
Qed.

Lemma Inv_removeEntity e s : Inv s → Inv (removeEntity e s).
Proof.
  intros HI. unfold removeEntity.
  destruct (entities s !! eid e) as [stored|] eqn:He; [|done].
  destruct HI as [H1 H2 H3 H4 H5 H6 H7].
  destruct (H2 (eid e)) as [l Hl]; [by eauto|]. rewrite Hl.
  split; simpl; intros k.
  - intros ent [_ Hk]%lookup_delete_Some. by apply H1.
  - intros [ent [_ Hk]%lookup_delete_Some]. apply H2. eauto.
  - apply H3.
  - intros l'. destruct (decide (eid e = k)) as [<-|Hne].
    + rewrite lookup_insert_eq. intros [= <-]. by eapply H3.
    + rewrite lookup_insert_ne by done. apply H4.
  - intros l' [ent [Hne Hk]%lookup_delete_Some].
    rewrite lookup_insert_ne by done. apply H5. eauto.
  - intros [ent [_ Hk]%lookup_delete_Some]. apply H6. eauto.
  - apply H7.
Qed.

Lemma Inv_set_entitySets m s : Inv s → Inv (set_entitySets m s).
Proof. intros [H1 H2 H3 H4 H5 H6 H7]. by split. Qed.

Lemma Inv_set_fields f s : Inv s → Inv (set_fields f s).
Proof. intros [H1 H2 H3 H4 H5 H6 H7]. by split. Qed.

Lemma Inv_heap_insert l o s :
  Inv s → Inv (set_heap (<[l := o]> (heap s)) s).
Proof.
  intros [H1 H2 H3 H4 H5 H6 H7].
  split; simpl; intros *; rewrite ?length_insert; eauto.
Qed.

Lemma Inv_store_component l n v s : Inv s → Inv (store_component l n v s).
Proof. apply Inv_heap_insert. Qed.

Lemma Inv_alloc_removed k s :
  Inv s →
  Inv (set_removedEntityComponentMap
         (<[k := length (heap s)]> (removedEntityComponentMap s))
         (set_heap (heap s ++ [∅]) s)).
Proof.
  intros [H1 H2 H3 H4 H5 H6 H7]. split; simpl; eauto.
  - intros k' l Hl%H3. rewrite length_app. simpl. lia.
  - intros k' l. rewrite length_app. simpl.
    destruct (decide (k = k')) as [<-|Hne].
    + rewrite lookup_insert_eq. intros [= <-]. lia.
    + rewrite lookup_insert_ne by done. intros Hl%H4. lia.
  - intros k' l Hk Hl. destruct (decide (k = k')) as [<-|Hne].
    + rewrite lookup_insert_eq. intros [= <-]. apply H3 in Hl. lia.
    + rewrite lookup_insert_ne by done. by apply H5.
Qed.

Lemma Inv_update_set e n v l es s s' :
  Inv s → update_set e n v (Some l) es s = Some s' → Inv s'.
Proof.
  intros HI [= <-].
  by apply Inv_store_component, Inv_set_entitySets.
Qed.

Lemma Inv_setComponent e n v s s' :
  Inv s → setComponent e n v s = Some s' → Inv s'.
Proof.
  intros HI. unfold setComponent.
  destruct (entities s !! eid e) as [stored|]; [|by intros [= <-]].
  simpl. destruct (entityComponentMap s !! eid e) as [l|] eqn:Hl.
  - destruct (entitySets s !! n) as [es|].
    + apply Inv_update_set. by apply Inv_set_fields.
    + destruct (isLazySets s).
      * intros [= <-]. by apply Inv_store_component, Inv_set_fields.
      * apply Inv_update_set. by apply Inv_set_entitySets, Inv_set_fields.
  - destruct (entitySets s !! n); [done|]. by destruct (isLazySets s).
Qed.

(** On an active entity of an invariant state [setComponent] does not
    throw. *)
Lemma setComponent_no_throw e n v s :
  Inv s → is_Some (setComponent e n v s).
Proof.
  intros HI. unfold setComponent.
  destruct (entities s !! eid e) as [stored|] eqn:He; [|by eauto].
  destruct (inv_map s HI (eid e)) as [l Hl]; [by eauto|].
  simpl. rewrite Hl.
  destruct (entitySets s !! n); [by eexists|].
  destruct (isLazySets s); by eexists.
Qed.

Lemma Inv_removeComponent e n s : Inv s → Inv (removeComponent e n s).
Proof.
  intros HI. unfold removeComponent.
  destruct (entityComponentMap s !! eid e) as [l|]; [|done].
  destruct (removedEntityComponentMap s !! eid e) as [r|].
  - simpl. destruct (entitySets s !! n).
    + by apply Inv_set_entitySets, Inv_heap_insert, Inv_store_component.
    + by apply Inv_heap_insert, Inv_store_component.
  - set (s1 := set_removedEntityComponentMap _ _).
    assert (Inv s1) as HI1 by by apply Inv_alloc_removed.
    simpl. destruct (entitySets s !! n).
    + by apply Inv_set_entitySets, Inv_heap_insert, (Inv_store_component _ _ _ s1).
    + by apply Inv_heap_insert, (Inv_store_component _ _ _ s1).
Qed.

Lemma Inv_getEntities n s : Inv s → Inv (snd (getEntities n s)).
Proof.
  intros HI. unfold getEntities.
  destruct (entitySets s !! n); [done|]. by apply Inv_set_entitySets.
Qed.

Lemma Inv_flushChanges s : Inv s → Inv (flushChanges s).
Proof.
  intros [H1 H2 H3 H4 H5 H6 H7].
  split; simpl; eauto; intros *; by rewrite lookup_empty.
Qed.

Lemma Inv_removeAll_step s key : Inv s → Inv (removeAll_step s key).
Proof.
  intros HI. unfold removeAll_step.
  destruct (entities s !! key); [by apply Inv_removeEntity|done].
Qed.

Lemma Inv_removeAllEntities s : Inv s → Inv (removeAllEntities s).
Proof.
  unfold removeAllEntities. generalize (entity_keys (entities s)).
  intros keys. revert s.
  induction keys as [|k keys IH]; intros s HI; [done|].
  simpl. by apply IH, Inv_removeAll_step.
Qed.

Create HintDb inv.
#[local] Hint Resolve Inv_set_isLazySets Inv_createEntity Inv_removeComponent
  Inv_removeEntity Inv_getEntities Inv_flushChanges Inv_removeAllEntities
  : inv.

Lemma Inv_exec o s s' : Inv s → exec o s = Some s' → Inv s'.
Proof.
  intros HI. destruct o as [b|id|e n v|e n|e|n| |]; cbn [exec];
    [| | by apply Inv_setComponent | | | | |]; intros Hs';
    apply (inj Some) in Hs'; subst s'; auto with inv.
Qed.

Lemma Inv_run ops s s' : Inv s → run ops s = Some s' → Inv s'.
Proof.
  revert s. induction ops as [|o ops IH]; intros s HI; simpl.
  - by intros [= <-].
  - destruct (exec o s) as [s1|] eqn:Ho; [|done].
    apply IH. by eapply Inv_exec.
Qed.

Lemma reachable_Inv s : reachable s → Inv s.
Proof. intros [ops Hrun]. eapply Inv_run; [apply Inv_EntitySystem|done]. Qed.

Lemma exec_no_throw o s : Inv s → is_Some (exec o s).
Proof.
  intros HI. destruct o; simpl; eauto using setComponent_no_throw.
Qed.

(** ** What each operation leaves alone *)

Lemma setComponent_inactive e n v s :
  entities s !! eid e = None → setComponent e n v s = Some s.
Proof. intros He. unfold setComponent. by rewrite He. Qed.

Lemma removeEntity_inactive e s :
  entities s !! eid e = None → removeEntity e s = s.
Proof. intros He. unfold removeEntity. by rewrite He. Qed.

Lemma removeComponent_no_map e n s :
  entityComponentMap s !! eid e = None → removeComponent e n s = s.
Proof. intros He. unfold removeComponent. by rewrite He. Qed.

Lemma setComponent_frame e n v s s' :
  setComponent e n v s = Some s' →
  counter s' = counter s ∧ entities s' = entities s
  ∧ entityComponentMap s' = entityComponentMap s
  ∧ removedEntityComponentMap s' = removedEntityComponentMap s
  ∧ isLazySets s' = isLazySets s
  ∧ length (heap s') = length (heap s).
Proof.
  unfold setComponent, update_set, store_component.
  repeat (case_match; simpl in * ); intros; simplify_eq; simpl;
    rewrite ?length_insert; done.
Qed.

Lemma removeComponent_frame e n s :
  counter (removeComponent e n s) = counter s
  ∧ entities (removeComponent e n s) = entities s
  ∧ entityComponentMap (removeComponent e n s) = entityComponentMap s
  ∧ isLazySets (removeComponent e n s) = isLazySets s.
Proof.
  unfold removeComponent, store_component.
  repeat (case_match; simpl in * ); simplify_eq; done.
Qed.

Lemma removeEntity_frame e s :
  counter (removeEntity e s) = counter s
  ∧ entityComponentMap (removeEntity e s) = entityComponentMap s
  ∧ heap (removeEntity e s) = heap s
  ∧ isLazySets (removeEntity e s) = isLazySets s.
Proof. unfold removeEntity. by repeat case_match. Qed.

Lemma removeAllEntities_frame s :
  counter (removeAllEntities s) = counter s
  ∧ entityComponentMap (removeAllEntities s) = entityComponentMap s
  ∧ heap (removeAllEntities s) = heap s
  ∧ isLazySets (removeAllEntities s) = isLazySets s.
Proof.
  unfold removeAllEntities. generalize (entity_keys (entities s)).
  intros keys. revert s. induction keys as [|k keys IH]; intros s; [done|].
  simpl. destruct (IH (removeAll_step s k)) as (-> & -> & -> & ->).
  unfold removeAll_step. destruct (entities s !! k); [|done].
  apply removeEntity_frame.
Qed.

Lemma getEntities_frame n s :
  counter (snd (getEntities n s)) = counter s
  ∧ entities (snd (getEntities n s)) = entities s
  ∧ entityComponentMap (snd (getEntities n s)) = entityComponentMap s
  ∧ removedEntityComponentMap (snd (getEntities n s))
    = removedEntityComponentMap s
  ∧ heap (snd (getEntities n s)) = heap s.
Proof. unfold getEntities. by case_match. Qed.

(** The counter never goes back, and only [createEntity] moves it. *)
Lemma exec_counter o s s' :
  exec o s = Some s' →
  counter s' = match o with
               | OpCreateEntity _ => S (counter s)
               | _ => counter s
               end.
Proof.
  destruct o as [b|id|e n v|e n|e|n| |]; cbn [exec];
    [| | by intros (-> & _)%setComponent_frame | | | | |];
    intros Hs'; apply (inj Some) in Hs'; subst s'; try done.
  - apply removeComponent_frame.
  - apply removeEntity_frame.
  - apply getEntities_frame.
  - apply removeAllEntities_frame.
Qed.

(** In an invariant state no operation deletes or replaces an entry of the
    active component registry. *)
Lemma exec_component_map_stable o s s' k l :
  Inv s → exec o s = Some s' →
  entityComponentMap s !! k = Some l → entityComponentMap s' !! k = Some l.
Proof.
  intros HI. destruct o as [b|id|e n v|e n|e|n| |]; cbn [exec].
  - by intros [= <-].
  - intros [= <-] Hk. simpl.
    rewrite lookup_insert_ne; [done|].
    intros Heq. pose proof (inv_map_below s HI k) as Hlt.
    rewrite Hk in Hlt. specialize (Hlt (mk_is_Some _ _ eq_refl)). lia.
  - by intros (_ & _ & -> & _)%setComponent_frame.
  - intros Hs'; apply (inj Some) in Hs'; subst s'.
    by destruct (removeComponent_frame e n s) as (_ & _ & -> & _).
  - intros Hs'; apply (inj Some) in Hs'; subst s'.
    by destruct (removeEntity_frame e s) as (_ & -> & _).
  - intros Hs'; apply (inj Some) in Hs'; subst s'.
    by destruct (getEntities_frame n s) as (_ & _ & -> & _).
  - by intros [= <-].
  - intros Hs'; apply (inj Some) in Hs'; subst s'.
    by destruct (removeAllEntities_frame s) as (_ & -> & _).
Qed.

(** ** Identity allocation *)

Lemma createEntity_id id s : eid (fst (createEntity id s)) = counter s.
Proof. done. Qed.

(** In an invariant state the id [createEntity] is about to assign is in
    use neither in the active-entities table nor in the component
    registry. *)
Lemma createEntity_id_unused id s :
  Inv s →
  entities s !! eid (fst (createEntity id s)) = None
  ∧ entityComponentMap s !! eid (fst (createEntity id s)) = None.
Proof.
  intros HI. simpl. split.
  - destruct (entities s !! counter s) eqn:Hk; [|done].
    assert (counter s < counter s); [|lia].
    apply (inv_below s HI). by rewrite Hk.
  - destruct (entityComponentMap s !! counter s) eqn:Hk; [|done].
    assert (counter s < counter s); [|lia].
    apply (inv_map_below s HI). by rewrite Hk.
Qed.

Lemma created_ids_from_counter ops s :
  Forall (λ i, counter s ≤ i) (created_ids ops s).
Proof.
  revert s. induction ops as [|o ops IH]; intros s; simpl; [constructor|].
  destruct (exec o s) as [s'|] eqn:Ho; [|constructor].
  pose proof (exec_counter _ _ _ Ho) as Hc.
  assert (Forall (λ i, counter s ≤ i) (created_ids ops s')) as Htail.
  { eapply Forall_impl; [apply IH|]. simpl. intros i Hi.
    destruct o; simpl in Hc; lia. }
  destruct o; try done. constructor; [simpl; lia|done].
Qed.

Lemma created_ids_sorted ops s : StronglySorted lt (created_ids ops s).
Proof.
  revert s. induction ops as [|o ops IH]; intros s; simpl; [constructor|].
  destruct (exec o s) as [s'|] eqn:Ho; [|constructor].
  destruct o; try apply IH.
  constructor; [apply IH|].
  pose proof (exec_counter _ _ _ Ho) as Hc.
  eapply Forall_impl; [apply created_ids_from_counter|].
  simpl in *. intros i Hi. lia.
Qed.

Lemma sorted_lt_NoDup (l : list nat) : StronglySorted lt l → NoDup l.
Proof.
  induction 1 as [|x l Hl IH Hx]; constructor; [|done].
  intros Hin. rewrite Forall_forall in Hx. specialize (Hx _ Hin). lia.
Qed.

(** C6: along every sequence of calls on one entity system the ids that
    [createEntity] assigns are strictly increasing in call order, hence
    pairwise distinct; removals in between do not make an id come back (no
    assigned id is below the counter the sequence started from, and each one
    is the counter at its call); and the optional id argument of
    [createEntity] has no effect. *)
Theorem C6_created_ids_strictly_increasing (ops : list op) (s : State) :
  StronglySorted lt (created_ids ops s)
  ∧ NoDup (created_ids ops s)
  ∧ Forall (λ i, counter s ≤ i) (created_ids ops s)
  ∧ (∀ id, createEntity id s = createEntity None s)
  ∧ (∀ id, eid (fst (createEntity id s)) = counter s
           ∧ counter (snd (createEntity id s)) = S (counter s)).
Proof.
  split; [apply created_ids_sorted|].
  split; [apply sorted_lt_NoDup, created_ids_sorted|].
  split; [apply created_ids_from_counter|].
  by split.
Qed.

(** ** Active entities and their component lists *)

(** C9: in every reachable state every id of the active-entities table has
    an entry in the active component registry. [createEntity] installs the
    entry together with the entity, no call deletes or replaces an entry and
    every call that returns leaves the invariant in place, and on an active
    entity [setComponent], [hasComponent] and [removeComponent] find the
    component list. With component names outside [Object.prototype] no call
    throws. *)
Theorem C9_active_entity_has_component_map (s : State) :
  reachable s →
  (∀ k, is_Some (entities s !! k) → is_Some (entityComponentMap s !! k))
  ∧ (∀ id, entities (snd (createEntity id s)) !! eid (fst (createEntity id s))
           = Some (fst (createEntity id s))
           ∧ is_Some (entityComponentMap (snd (createEntity id s))
                        !! eid (fst (createEntity id s))))
  ∧ (∀ o s', exec o s = Some s' →
       (∀ k l, entityComponentMap s !! k = Some l →
               entityComponentMap s' !! k = Some l)
       ∧ (∀ k, is_Some (entities s' !! k) →
               is_Some (entityComponentMap s' !! k)))
  ∧ (∀ o, op_own_name o = true → is_Some (exec o s))
  ∧ (∀ e n v, is_Some (entities s !! eid e) →
       ∃ l, entityComponentMap s !! eid e = Some l
            ∧ (own_name n = true →
               is_Some (setComponent e n v s)
               ∧ hasComponent s e n = get_prop (obj_at (heap s) l) n)).
Proof.
  intros HI%reachable_Inv. split; [apply (inv_map s HI)|].
  split.
  { intros id. simpl. rewrite !lookup_insert_eq. eauto. }
  split.
  { intros o s' Hs'. split.
    - intros k l. by apply exec_component_map_stable with o.
    - apply inv_map. by apply Inv_exec with o s. }
  split.
  { intros o _. by apply exec_no_throw. }
  intros e n v He. destruct (inv_map s HI _ He) as [l Hl]. exists l.
  split; [done|]. intros _. split; [by apply setComponent_no_throw|].
  unfold hasComponent. by rewrite Hl.
Qed.

Lemma C9_witness :
  let s := after prog_positioned in
  reachable s
  ∧ (∀ k, is_Some (entities s !! k) → is_Some (entityComponentMap s !! k))
  ∧ (∀ id, entities (snd (createEntity id s)) !! eid (fst (createEntity id s))
           = Some (fst (createEntity id s))
           ∧ is_Some (entityComponentMap (snd (createEntity id s))
                        !! eid (fst (createEntity id s))))
  ∧ (∀ o s', exec o s = Some s' →
       (∀ k l, entityComponentMap s !! k = Some l →
               entityComponentMap s' !! k = Some l)
       ∧ (∀ k, is_Some (entities s' !! k) →
               is_Some (entityComponentMap s' !! k)))
  ∧ (∀ o, op_own_name o = true → is_Some (exec o s))
  ∧ (∀ e n v, is_Some (entities s !! eid e) →
       ∃ l, entityComponentMap s !! eid e = Some l
            ∧ (own_name n = true →
               is_Some (setComponent e n v s)
               ∧ hasComponent s e n = get_prop (obj_at (heap s) l) n)).
Proof.
  intros s.
  assert (reachable s) as Hs by (exists prog_positioned; reflexivity).
  split; [exact Hs|].
  exact (C9_active_entity_has_component_map s Hs).
Defined.

(** ** Stale handles *)

(** C10: [removeEntity] looks its argument up by id only. For a handle [h]
    whose id is active but which is not the stored object ([hasEntity h] is
    false), [removeEntity h] removes the stored entity, stages its component
    list in the removed registry, and passes [h] itself, not the stored
    object, to the [remove] of every entity set. *)
Theorem C10_removeEntity_validates_by_id (s : State) (h stored : Entity) :
  entities s !! eid h = Some stored →
  eref stored ≠ eref h →
  hasEntity s h = false
  ∧ entities (removeEntity h s) = delete (eid h) (entities s)
  ∧ getEntityByID (removeEntity h s) (eid h) = None
  ∧ removedEntityComponentMap (removeEntity h s) !! eid h
    = entityComponentMap s !! eid h
  ∧ entitySets (removeEntity h s) = EntitySet.remove h <$> entitySets s
  ∧ (∀ n es, entitySets s !! n = Some es →
       entitySets (removeEntity h s) !! n = Some (NRemove h :: es)
       ∧ NRemove h ≠ NRemove stored).
Proof.
  intros Hstored Hne.
  assert (hasEntity s h = false) as Hhas.
  { unfold hasEntity, same_object. rewrite Hstored.
    by apply Nat.eqb_neq. }
  split; [done|]. unfold removeEntity, getEntityByID. rewrite Hstored.
  assert (∀ n es, entitySets s !! n = Some es →
            (EntitySet.remove h <$> entitySets s) !! n = Some (NRemove h :: es)
            ∧ NRemove h ≠ NRemove stored) as Hsets.
  { intros n es Hn. rewrite lookup_fmap, Hn. split; [done|].
    intros [= ->]. done. }
  destruct (entityComponentMap s !! eid h) as [l|] eqn:Hl; simpl;
    rewrite ?lookup_delete_eq, ?lookup_insert_eq;
    (split; [done|]); (split; [done|]); (split; [done|]);
    (split; [done|]); done.
Qed.

Lemma C10_witness :
  let s := after prog_positioned in
  entities s !! eid e0_stale = Some e0
  ∧ eref e0 ≠ eref e0_stale
  ∧ hasEntity s e0_stale = false
  ∧ entities (removeEntity e0_stale s) = delete (eid e0_stale) (entities s)
  ∧ getEntityByID (removeEntity e0_stale s) (eid e0_stale) = None
  ∧ removedEntityComponentMap (removeEntity e0_stale s) !! eid e0_stale
    = entityComponentMap s !! eid e0_stale
  ∧ entitySets (removeEntity e0_stale s)
    = EntitySet.remove e0_stale <$> entitySets s
  ∧ (∀ n es, entitySets s !! n = Some es →
       entitySets (removeEntity e0_stale s) !! n
       = Some (NRemove e0_stale :: es)
       ∧ NRemove e0_stale ≠ NRemove e0).
Proof.
  intros s.
  assert (entities s !! eid e0_stale = Some e0) as H1 by reflexivity.
  assert (eref e0 ≠ eref e0_stale) as H2 by (simpl; lia).
  split; [exact H1|]. split; [exact H2|].
  exact (C10_removeEntity_validates_by_id s e0_stale e0 H1 H2).
Defined.

(** ** Reading components *)

Lemma getComponent_removed_spec s e n :
  getComponent_removed s e n
  = default VNull
      (truthy_entry (removedEntityComponentMap s) (heap s) (eid e) n).
Proof.
  unfold getComponent_removed, truthy_entry, get_prop.
  destruct (removedEntityComponentMap s !! eid e) as [l|]; [|done].
  destruct (obj_at (heap s) l !! n) as [v|]; simpl; [|done].
  by destruct (truthy v).
Qed.

(** C4, amended: for a component name [n] outside [Object.prototype],
    [getComponent(e, n)] returns the value stored under [n] in the active
    component list of [e]'s id when that list exists and holds a truthy value
    under [n]; otherwise the value the removed registry holds for the id
    under [n] when that one is truthy; otherwise [null]. A stored value that
    is not truthy counts as absent at either step. *)
Theorem C4_getComponent_lookup_order (s : State) (e : Entity) (n : string) :
  own_name n = true →
  getComponent s e n = getComponent_spec s e n.
Proof.
  intros _. unfold getComponent, getComponent_spec.
  rewrite getComponent_removed_spec.
  set (stale := truthy_entry (removedEntityComponentMap s) _ _ _).
  unfold truthy_entry, get_prop.
  destruct (entityComponentMap s !! eid e) as [l|].
  - destruct (obj_at (heap s) l !! n) as [v|]; simpl.
    + destruct (truthy v); [done|]. by destruct stale.
    + by destruct stale.
  - by destruct stale.
Qed.

(** The hypothesis of C4 holds for ["Position"], here in the state where
    the number 0 was set over a removed position. *)
Lemma C4_witness :
  let s := after prog_zero_over_stale in
  own_name "Position" = true
  ∧ getComponent s e0 "Position" = getComponent_spec s e0 "Position".
Proof.
  intros s.
  assert (own_name "Position" = true) as H0 by reflexivity.
  split; [exact H0|].
  exact (C4_getComponent_lookup_order s e0 "Position" H0).
Defined.

(** C4 as stated fails: the active component list of the entity holds
    ["Position"] (with the value 0), yet [getComponent] returns the stale
    component of the removed registry instead of the stored value. *)
Lemma C4_counterexample :
  let s := after prog_zero_over_stale in
  run prog_zero_over_stale EntitySystem = Some s
  ∧ entityComponentMap s !! eid e0 = Some 0
  ∧ obj_at (heap s) 0 !! "Position" = Some (VNum 0)
  ∧ getComponent s e0 "Position" = position
  ∧ getComponent s e0 "Position" ≠ VNum 0.
Proof. vm_compute. repeat split; congruence. Qed.

(** ** The flush boundary *)

(** C1, the failing run: an entity with a position is removed with
    [removeEntity] and the tick is flushed; the removed registry is empty
    and the entity is no longer active, yet [getComponent] still returns the
    position instead of [null], because [removeEntity] leaves the component
    list in the active registry. *)
Theorem C1_removed_entity_component_survives_flush :
  let s := after prog_removed_flushed in
  run prog_removed_flushed EntitySystem = Some s
  ∧ entities s !! eid e0 = None
  ∧ removedEntityComponentMap s = ∅
  ∧ getComponent s e0 "Position" = position
  ∧ position ≠ VNull.
Proof. vm_compute. repeat split; congruence. Qed.

(** C2, the failing run: after [createEntity] and [removeEntity] the id of
    the removed entity still has an entry in the active component registry
    and is absent from the active-entities table. *)
Theorem C2_component_map_outlives_entity :
  let s := after prog_created_removed in
  run prog_created_removed EntitySystem = Some s
  ∧ entityComponentMap s !! eid e0 = Some 0
  ∧ entities s !! eid e0 = None.
Proof. vm_compute. repeat split; congruence. Qed.

(** C8, the failing run: on an entity already removed with [removeEntity],
    [removeComponent] is not a no-op. It deletes the component from the list
    that the active and the removed registry share, so that [getComponent]
    no longer finds it, and it notifies the entity set once more. *)
Theorem C8_removeComponent_on_removed_entity_changes_state :
  let s := after prog_removed in
  run prog_removed EntitySystem = Some s
  ∧ entities s !! eid e0 = None
  ∧ getComponent s e0 "Position" = position
  ∧ getComponent (removeComponent e0 "Position" s) e0 "Position" = VNull
  ∧ entitySets s !! "Position" = Some [NRemove e0; NAdd e0]
  ∧ entitySets (removeComponent e0 "Position" s) !! "Position"
    = Some [NRemove e0; NRemove e0; NAdd e0]
  ∧ removeComponent e0 "Position" s ≠ s.
Proof.
  vm_compute. repeat split; try congruence.
Qed.

(** ** Component lists in the heap *)

Lemma obj_at_insert_eq (h : list props) l o :
  l < length h → obj_at (<[l := o]> h) l = o.
Proof. intros Hl. unfold obj_at. by rewrite list_lookup_insert_eq. Qed.

Lemma obj_at_insert_ne (h : list props) l l' o :
  l ≠ l' → obj_at (<[l := o]> h) l' = obj_at h l'.
Proof. intros Hl. unfold obj_at. by rewrite list_lookup_insert_ne. Qed.

Lemma obj_at_app_l (h k : list props) l :
  l < length h → obj_at (h ++ k) l = obj_at h l.
Proof. intros Hl. unfold obj_at. by rewrite lookup_app_l. Qed.

Lemma obj_at_app_new (h : list props) o : obj_at (h ++ [o]) (length h) = o.
Proof. unfold obj_at. by rewrite list_lookup_middle. Qed.

(** ** The effect of [removeComponent] *)

Lemma removeComponent_sets e n s l :
  entityComponentMap s !! eid e = Some l →
  entitySets (removeComponent e n s)
  = match entitySets s !! n with
    | Some es => <[n := NRemove e :: es]> (entitySets s)
    | None => entitySets s
    end.
Proof.
  intros Hl. unfold removeComponent. rewrite Hl.
  destruct (removedEntityComponentMap s !! eid e); simpl;
    by destruct (entitySets s !! n).
Qed.

Lemma removeComponent_staged e n s l r :
  entityComponentMap s !! eid e = Some l →
  removedEntityComponentMap s !! eid e = Some r →
  let h2 := <[r := <[n := get_prop (obj_at (heap s) l) n]>
                      (obj_at (heap s) r)]> (heap s) in
  heap (removeComponent e n s) = <[l := delete n (obj_at h2 l)]> h2
  ∧ removedEntityComponentMap (removeComponent e n s)
    = removedEntityComponentMap s.
Proof.
  intros Hl Hr. unfold removeComponent. rewrite Hl, Hr. simpl.
  by destruct (entitySets s !! n).
Qed.

Lemma removeComponent_fresh e n s l :
  entityComponentMap s !! eid e = Some l →
  removedEntityComponentMap s !! eid e = None →
  let h1 := heap s ++ [∅] in
  let h2 := <[length (heap s) := <[n := get_prop (obj_at h1 l) n]>
                      (obj_at h1 (length (heap s)))]> h1 in
  heap (removeComponent e n s) = <[l := delete n (obj_at h2 l)]> h2
  ∧ removedEntityComponentMap (removeComponent e n s)
    = <[eid e := length (heap s)]> (removedEntityComponentMap s).
Proof.
  intros Hl Hr. unfold removeComponent. rewrite Hl, Hr. simpl.
  by destruct (entitySets s !! n).
Qed.

(** After [removeComponent] the active list no longer holds the name. *)
Lemma removeComponent_active_list e n s l :
  Inv s → entityComponentMap s !! eid e = Some l →
  obj_at (heap (removeComponent e n s)) l !! n = None.
Proof.
  intros HI Hl. pose proof (inv_active_loc s HI _ _ Hl) as Hlt.
  destruct (removedEntityComponentMap s !! eid e) as [r|] eqn:Hr.
  - destruct (removeComponent_staged e n s l r Hl Hr) as [-> _].
    rewrite obj_at_insert_eq by (by rewrite length_insert).
    apply lookup_delete_eq.
  - destruct (removeComponent_fresh e n s l Hl Hr) as [-> _].
    rewrite obj_at_insert_eq
      by (rewrite length_insert, length_app; simpl; lia).
    apply lookup_delete_eq.
Qed.

(** The list that [removeComponent] stages the component in, for an active
    entity: it is not the active list, it holds the removed value, and the
    names staged before are as they were. *)
Lemma removeComponent_staged_list e n s l :
  Inv s → is_Some (entities s !! eid e) →
  entityComponentMap s !! eid e = Some l →
  ∃ r, removedEntityComponentMap (removeComponent e n s) !! eid e = Some r
       ∧ r ≠ l
       ∧ obj_at (heap (removeComponent e n s)) r !! n
         = Some (get_prop (obj_at (heap s) l) n)
       ∧ (∀ r0, removedEntityComponentMap s !! eid e = Some r0 → r = r0)
       ∧ (∀ r0 n', removedEntityComponentMap s !! eid e = Some r0 →
            n' ≠ n →
            obj_at (heap (removeComponent e n s)) r0 !! n'
            = obj_at (heap s) r0 !! n').
Proof.
  intros HI He Hl. pose proof (inv_active_loc s HI _ _ Hl) as Hlt.
  destruct (removedEntityComponentMap s !! eid e) as [r|] eqn:Hr.
  - destruct (removeComponent_staged e n s l r Hl Hr) as [-> ->].
    pose proof (inv_removed_loc s HI _ _ Hr) as Hrt.
    assert (r ≠ l) as Hne.
    { intros ->. by apply (inv_own s HI (eid e) l). }
    exists r. split; [done|]. split; [done|].
    rewrite obj_at_insert_ne by done.
    rewrite obj_at_insert_eq by done.
    split; [by rewrite lookup_insert_eq|].
    split; [by intros r0 [= <-]|].
    intros r0 n' [= <-] Hn'.
    rewrite obj_at_insert_ne, obj_at_insert_eq by done.
    by rewrite lookup_insert_ne.
  - destruct (removeComponent_fresh e n s l Hl Hr) as [-> ->].
    exists (length (heap s)). rewrite lookup_insert_eq.
    split; [done|]. split; [lia|].
    rewrite obj_at_insert_ne by lia.
    rewrite obj_at_insert_eq by (rewrite length_app; simpl; lia).
    rewrite lookup_insert_eq, obj_at_app_l by done.
    split; [done|]. split; by intros r0.
Qed.

(** A component removed with [removeComponent] is gone after the flush. *)
Lemma getComponent_removeComponent_flush s e n :
  Inv s →
  getComponent (flushChanges (removeComponent e n s)) e n = VNull.
Proof.
  intros HI. unfold getComponent, getComponent_removed. simpl.
  rewrite lookup_empty.
  destruct (removeComponent_frame e n s) as (_ & _ & -> & _).
  destruct (entityComponentMap s !! eid e) as [l|] eqn:Hl; [|done].
  unfold get_prop. by rewrite removeComponent_active_list.
Qed.

(** ** The back-fill of [getEntities] *)

Lemma elem_of_entity_keys (m : gmap nat Entity) k :
  k ∈ entity_keys m ↔ is_Some (m !! k).
Proof.
  unfold entity_keys. rewrite merge_sort_Permutation, list_elem_of_fmap.
  split.
  - intros [[k' ent] [-> Hin%elem_of_map_to_list]]. by eexists.
  - intros [ent Hk]. exists (k, ent). by rewrite elem_of_map_to_list.
Qed.

Lemma hasComponent_eid s a b n :
  eid a = eid b → hasComponent s a n = hasComponent s b n.
Proof. intros Heq. unfold hasComponent. by rewrite Heq. Qed.

Section backfill.
Variable s : State.
Variable n : string.

Lemma backfill_contains_false id keys acc :
  (∀ k ent, entities s !! k = Some ent → eid ent = id →
            truthy (hasComponent s ent n) = false) →
  EntitySet.contains id acc = false →
  EntitySet.contains id (foldl (backfill_step s n) acc keys) = false.
Proof.
  intros Hno. revert acc.
  induction keys as [|k keys IH]; intros acc Hacc; [done|].
  simpl. apply IH. unfold backfill_step.
  destruct (entities s !! k) as [ent|] eqn:Hk; [|done].
  destruct (truthy (hasComponent s ent n)) eqn:Ht; [|done].
  simpl. destruct (Nat.eqb_spec (eid ent) id) as [Heq|]; [|done].
  by rewrite (Hno k ent Hk Heq) in Ht.
Qed.

Lemma backfill_step_keeps id acc k :
  EntitySet.contains id acc = true →
  EntitySet.contains id (backfill_step s n acc k) = true.
Proof.
  intros Hacc. unfold backfill_step.
  destruct (entities s !! k) as [ent|]; [|done].
  destruct (truthy (hasComponent s ent n)); [|done].
  simpl. by destruct (Nat.eqb (eid ent) id).
Qed.

Lemma backfill_keeps id keys acc :
  EntitySet.contains id acc = true →
  EntitySet.contains id (foldl (backfill_step s n) acc keys) = true.
Proof.
  revert acc. induction keys as [|k keys IH]; intros acc Hacc; [done|].
  simpl. by apply IH, backfill_step_keeps.
Qed.

Lemma backfill_contains_true keys acc k ent :
  k ∈ keys → entities s !! k = Some ent →
  truthy (hasComponent s ent n) = true →
  EntitySet.contains (eid ent) (foldl (backfill_step s n) acc keys) = true.
Proof.
  intros Hin Hk Ht. revert acc.
  induction keys as [|k' keys IH]; intros acc; [by apply elem_of_nil in Hin|].
  simpl. apply elem_of_cons in Hin as [<-|Hin]; [|by apply IH].
  apply backfill_keeps. unfold backfill_step. rewrite Hk, Ht. simpl.
  by rewrite Nat.eqb_refl.
Qed.

Lemma backfill_mono keys acc x :
  x ∈ acc → x ∈ foldl (backfill_step s n) acc keys.
Proof.
  revert acc. induction keys as [|k keys IH]; intros acc Hx; [done|].
  simpl. apply IH. unfold backfill_step.
  destruct (entities s !! k) as [ent|]; [|done].
  destruct (truthy (hasComponent s ent n)); [|done].
  by apply elem_of_cons; right.
Qed.

Lemma backfill_adds keys acc k ent :
  k ∈ keys → entities s !! k = Some ent →
  truthy (hasComponent s ent n) = true →
  NAdd ent ∈ foldl (backfill_step s n) acc keys.
Proof.
  intros Hin Hk Ht. revert acc.
  induction keys as [|k' keys IH]; intros acc; [by apply elem_of_nil in Hin|].
  simpl. apply elem_of_cons in Hin as [<-|Hin]; [|by apply IH].
  apply backfill_mono. unfold backfill_step. rewrite Hk, Ht.
  by apply elem_of_cons; left.
Qed.

Lemma backfill_only_adds keys acc x :
  x ∈ foldl (backfill_step s n) acc keys →
  x ∈ acc
  ∨ ∃ k ent, k ∈ keys ∧ x = NAdd ent ∧ entities s !! k = Some ent
             ∧ truthy (hasComponent s ent n) = true.
Proof.
  revert acc. induction keys as [|k keys IH]; intros acc; [by left|].
  simpl. intros [Hx|(k' & ent & Hk' & -> & Hent & Ht)]%IH.
  - unfold backfill_step in Hx.
    destruct (entities s !! k) as [ent|] eqn:Hk; [|by left].
    destruct (truthy (hasComponent s ent n)) eqn:Ht; [|by left].
    apply elem_of_cons in Hx as [->|Hx]; [|by left].
    right. exists k, ent. split; [by apply elem_of_cons; left|done].
  - right. exists k', ent. split; [by apply elem_of_cons; right|done].
Qed.

End backfill.

(** ** Notifications of [setComponent] *)

(** C3, amended: for an active entity [e] and a name [n] outside
    [Object.prototype] whose entity set exists, or is created by the call in
    eager mode, [setComponent(e, n, v)] issues exactly one notification to
    that set and none to any other:
    [change] when the active component list of [e] held a truthy value under
    [n] before the call, [add] otherwise, also when [n] was present with a
    value that is not truthy. The choice does not depend on the new value
    [v]. *)
Theorem C3_setComponent_notifies_once (s : State) (e stored : Entity)
    (n : string) (v : value) (l : nat) (es : list note) :
  own_name n = true →
  entities s !! eid e = Some stored →
  entityComponentMap s !! eid e = Some l →
  entitySets s !! n = Some es
  ∨ (entitySets s !! n = None ∧ isLazySets s = false ∧ es = EntitySet.new) →
  ∃ s', setComponent e n v s = Some s'
        ∧ entitySets s'
          = <[n := (if truthy (get_prop (obj_at (heap s) l) n)
                    then NChange e else NAdd e) :: es]> (entitySets s)
        ∧ entitySets s' !! n
          = Some ((if truthy (get_prop (obj_at (heap s) l) n)
                   then NChange e else NAdd e) :: es)
        ∧ (∀ n', n' ≠ n → entitySets s' !! n' = entitySets s !! n').
Proof.
  intros _ He Hl Hset. unfold setComponent. rewrite He, Hl. simpl.
  destruct Hset as [Hes|(Hes & Hlazy & ->)]; rewrite Hes.
  - eexists. split; [done|]. simpl.
    split; [by destruct (truthy _)|].
    split; [by destruct (truthy _); rewrite lookup_insert_eq|].
    intros n' Hn'. by destruct (truthy _); rewrite lookup_insert_ne.
  - rewrite Hlazy. eexists. split; [done|]. simpl.
    split; [by destruct (truthy _); rewrite insert_insert_eq|].
    split; [by destruct (truthy _); rewrite lookup_insert_eq|].
    intros n' Hn'. by destruct (truthy _); rewrite !lookup_insert_ne.
Qed.

(** The hypotheses of C3 hold for the entity with a position. *)
Lemma C3_witness :
  let s := after prog_positioned in
  own_name "Position" = true
  ∧ entities s !! eid e0 = Some e0
  ∧ entityComponentMap s !! eid e0 = Some 0
  ∧ (entitySets s !! "Position" = Some [NAdd e0]
     ∨ (entitySets s !! "Position" = None ∧ isLazySets s = false
        ∧ [NAdd e0] = EntitySet.new))
  ∧ ∃ s', setComponent e0 "Position" (VNum 7) s = Some s'
        ∧ entitySets s'
          = <["Position" :=
                (if truthy (get_prop (obj_at (heap s) 0) "Position")
                 then NChange e0 else NAdd e0) :: [NAdd e0]]> (entitySets s)
        ∧ entitySets s' !! "Position"
          = Some ((if truthy (get_prop (obj_at (heap s) 0) "Position")
                   then NChange e0 else NAdd e0) :: [NAdd e0])
        ∧ (∀ n', n' ≠ "Position" →
                 entitySets s' !! n' = entitySets s !! n').
Proof.
  intros s.
  assert (own_name "Position" = true) as H0 by reflexivity.
  assert (entities s !! eid e0 = Some e0) as H1 by reflexivity.
  assert (entityComponentMap s !! eid e0 = Some 0) as H2 by reflexivity.
  assert (entitySets s !! "Position" = Some [NAdd e0]
     ∨ (entitySets s !! "Position" = None ∧ isLazySets s = false
        ∧ [NAdd e0] = EntitySet.new)) as H3 by (left; reflexivity).
  split; [exact H0|].
  split; [exact H1|]. split; [exact H2|]. split; [exact H3|].
  exact (C3_setComponent_notifies_once s e0 e0 "Position" (VNum 7) 0
           [NAdd e0] H0 H1 H2 H3).
Defined.

(** C3 as stated fails: ["Position"] is present in the active component
    list with the value 0 and the call issues [add], not [change]; with a
    component object as the old value the same call issues [change], so the
    choice depends on the old value. *)
Lemma C3_counterexample :
  let s := after prog_zero in
  let s_truthy := after prog_positioned in
  run prog_zero EntitySystem = Some s
  ∧ entityComponentMap s !! eid e0 = Some 0
  ∧ obj_at (heap s) 0 !! "Position" = Some (VNum 0)
  ∧ entitySets s !! "Position" = Some [NAdd e0]
  ∧ ((λ s', entitySets s' !! "Position")
       <$> setComponent e0 "Position" position s)
    = Some (Some [NAdd e0; NAdd e0])
  ∧ obj_at (heap s_truthy) 0 !! "Position" = Some position
  ∧ entitySets s_truthy !! "Position" = Some [NAdd e0]
  ∧ ((λ s', entitySets s' !! "Position")
       <$> setComponent e0 "Position" position s_truthy)
    = Some (Some [NChange e0; NAdd e0]).
Proof. vm_compute. repeat split; congruence. Qed.

(** ** Removing a component *)

(** C5, amended: for an active entity [e] of a reachable state whose active
    component list holds a truthy value [v] under [n], right after
    [removeComponent(e, n)]: [hasComponent(e, n)] is falsy ([undefined]); the
    entity set of [n], if there is one, has received one more notification,
    [remove e]; the set [getEntities(n)] returns does not contain [e];
    [getComponent(e, n)] still returns [v]; and the other names staged in the
    removed registry for the id are as they were. *)
Theorem C5_removeComponent_before_flush (s : State) (e stored : Entity)
    (n : string) (v : value) (l : nat) :
  reachable s →
  entities s !! eid e = Some stored →
  entityComponentMap s !! eid e = Some l →
  obj_at (heap s) l !! n = Some v →
  truthy v = true →
  hasComponent (removeComponent e n s) e n = VUndefined
  ∧ truthy (hasComponent (removeComponent e n s) e n) = false
  ∧ (∀ es, entitySets s !! n = Some es →
       entitySets (removeComponent e n s) !! n = Some (NRemove e :: es))
  ∧ EntitySet.contains (eid e) (fst (getEntities n (removeComponent e n s)))
    = false
  ∧ getComponent (removeComponent e n s) e n = v
  ∧ (∀ r n', removedEntityComponentMap s !! eid e = Some r → n' ≠ n →
       removedEntityComponentMap (removeComponent e n s) !! eid e = Some r
       ∧ obj_at (heap (removeComponent e n s)) r !! n'
         = obj_at (heap s) r !! n').
Proof.
  intros HI%reachable_Inv He Hl Hv Ht.
  pose proof (removeComponent_active_list e n s l HI Hl) as Hgone.
  destruct (removeComponent_frame e n s) as (_ & Hents & Hmap & _).
  assert (hasComponent (removeComponent e n s) e n = VUndefined) as Hhas.
  { unfold hasComponent, get_prop. by rewrite Hmap, Hl, Hgone. }
  split; [done|]. split; [by rewrite Hhas|].
  split.
  { intros es Hes. rewrite (removeComponent_sets e n s l Hl), Hes.
    apply lookup_insert_eq. }
  split.
  { unfold getEntities. rewrite (removeComponent_sets e n s l Hl).
    destruct (entitySets s !! n) as [es|] eqn:Hes.
    - rewrite lookup_insert_eq. simpl. by rewrite Nat.eqb_refl.
    - rewrite Hes. simpl. apply backfill_contains_false; [|done].
      intros k ent _ Heq. by rewrite (hasComponent_eid _ ent e n Heq), Hhas. }
  destruct (removeComponent_staged_list e n s l HI) as
    (r & Hr & Hne & Hstaged & Hsame & Hothers); [by eauto|done|].
  split.
  { unfold getComponent, getComponent_removed, get_prop.
    rewrite Hmap, Hl, Hgone. simpl. rewrite Hr, Hstaged.
    unfold get_prop. rewrite Hv. simpl. by rewrite Ht. }
  intros r0 n' Hr0 Hn'. split; [|by apply Hothers].
  by rewrite <- (Hsame r0 Hr0).
Qed.

(** The hypotheses of C5 hold for the entity with a position. *)
Lemma C5_witness :
  let s := after prog_positioned in
  reachable s
  ∧ entities s !! eid e0 = Some e0
  ∧ entityComponentMap s !! eid e0 = Some 0
  ∧ obj_at (heap s) 0 !! "Position" = Some position
  ∧ truthy position = true
  ∧ hasComponent (removeComponent e0 "Position" s) e0 "Position" = VUndefined
  ∧ truthy (hasComponent (removeComponent e0 "Position" s) e0 "Position")
    = false
  ∧ (∀ es, entitySets s !! "Position" = Some es →
       entitySets (removeComponent e0 "Position" s) !! "Position"
       = Some (NRemove e0 :: es))
  ∧ EntitySet.contains (eid e0)
      (fst (getEntities "Position" (removeComponent e0 "Position" s)))
    = false
  ∧ getComponent (removeComponent e0 "Position" s) e0 "Position" = position
  ∧ (∀ r n', removedEntityComponentMap s !! eid e0 = Some r →
       n' ≠ "Position" →
       removedEntityComponentMap (removeComponent e0 "Position" s) !! eid e0
       = Some r
       ∧ obj_at (heap (removeComponent e0 "Position" s)) r !! n'
         = obj_at (heap s) r !! n').
Proof.
  intros s.
  assert (reachable s) as H0 by (exists prog_positioned; reflexivity).
  assert (entities s !! eid e0 = Some e0) as H1 by reflexivity.
  assert (entityComponentMap s !! eid e0 = Some 0) as H2 by reflexivity.
  assert (obj_at (heap s) 0 !! "Position" = Some position) as H3
    by reflexivity.
  assert (truthy position = true) as H4 by reflexivity.
  split; [exact H0|]. split; [exact H1|]. split; [exact H2|].
  split; [exact H3|]. split; [exact H4|].
  exact (C5_removeComponent_before_flush s e0 e0 "Position" position 0
           H0 H1 H2 H3 H4).
Defined.

(** C5 as stated fails: the active entity holds ["Position"] with the
    value 0, and after [removeComponent] the call [getComponent] returns
    [null], not the value removed. *)
Lemma C5_counterexample :
  let s := after prog_zero in
  run prog_zero EntitySystem = Some s
  ∧ entities s !! eid e0 = Some e0
  ∧ entityComponentMap s !! eid e0 = Some 0
  ∧ obj_at (heap s) 0 !! "Position" = Some (VNum 0)
  ∧ getComponent (removeComponent e0 "Position" s) e0 "Position" = VNull
  ∧ getComponent (removeComponent e0 "Position" s) e0 "Position" ≠ VNum 0.
Proof. vm_compute. repeat split; congruence. Qed.

(** ** Lazy sets *)

(** C7, amended: in a reachable state with [isLazySets] on and no entity set
    for a name [n] outside [Object.prototype], [setComponent(e1, n, v)] with
    a truthy [v] on an active entity commits [v] to the active component list
    and creates no set
    ([hasComponent] and [getComponent] return [v], the sets are as before);
    the next [getEntities(n)] creates the set, registers it and back-fills it
    with exactly the active entities that have [n], so that it contains
    [e1]. *)
Theorem C7_lazy_set_backfill (s : State) (e1 stored : Entity)
    (n : string) (v : value) :
  reachable s →
  own_name n = true →
  isLazySets s = true →
  entitySets s !! n = None →
  entities s !! eid e1 = Some stored →
  truthy v = true →
  ∃ s1, setComponent e1 n v s = Some s1
        ∧ entitySets s1 = entitySets s
        ∧ hasComponent s1 e1 n = v
        ∧ getComponent s1 e1 n = v
        ∧ entitySets (snd (getEntities n s1)) !! n
          = Some (fst (getEntities n s1))
        ∧ EntitySet.contains (eid e1) (fst (getEntities n s1)) = true
        ∧ NAdd stored ∈ fst (getEntities n s1)
        ∧ (∀ x, x ∈ fst (getEntities n s1) →
             ∃ ent, x = NAdd ent ∧ entities s1 !! eid ent = Some ent
                    ∧ truthy (hasComponent s1 ent n) = true).
Proof.
  intros HI%reachable_Inv _ Hlazy Hset He Ht.
  destruct (inv_map s HI (eid e1)) as [l Hl]; [by eauto|].
  pose proof (inv_active_loc s HI _ _ Hl) as Hlt.
  pose proof (inv_id s HI _ _ He) as Hid.
  unfold setComponent. rewrite He, Hl. simpl. rewrite Hset, Hlazy.
  eexists. split; [done|].
  set (s1 := store_component l n v _).
  assert (hasComponent s1 e1 n = v) as Hhas.
  { unfold hasComponent, get_prop. simpl. rewrite Hl.
    rewrite obj_at_insert_eq by done. by rewrite lookup_insert_eq. }
  split; [done|]. split; [done|].
  split.
  { unfold getComponent, get_prop. simpl. rewrite Hl.
    rewrite obj_at_insert_eq by done. rewrite lookup_insert_eq. simpl.
    by rewrite Ht. }
  assert (eid e1 ∈ entity_keys (entities s1)) as Hkey.
  { apply elem_of_entity_keys. simpl. eauto. }
  assert (truthy (hasComponent s1 stored n) = true) as Hstored.
  { by rewrite (hasComponent_eid s1 stored e1 n Hid), Hhas. }
  assert (entitySets s1 !! n = None) as Hnone by done.
  unfold getEntities. rewrite Hnone. cbn [fst snd].
  split; [simpl; by rewrite lookup_insert_eq|].
  split.
  { rewrite <- Hid.
    by apply (backfill_contains_true s1 n _ _ (eid e1) stored). }
  split.
  { by apply (backfill_adds s1 n _ _ (eid e1) stored). }
  intros x [Hx|(k & ent & _ & -> & Hent & Htrue)]%backfill_only_adds.
  { by apply elem_of_nil in Hx. }
  exists ent. split; [done|]. split; [|done].
  simpl in Hent. by rewrite (inv_id s HI _ _ Hent).
Qed.

(** The hypotheses of C7 hold for a new entity in lazy mode, addressed
    through another handle with its id. *)
Lemma C7_witness :
  let s := after prog_lazy in
  reachable s
  ∧ own_name "Velocity" = true
  ∧ isLazySets s = true
  ∧ entitySets s !! "Velocity" = None
  ∧ entities s !! eid e0_stale = Some e0
  ∧ truthy velocity = true
  ∧ ∃ s1, setComponent e0_stale "Velocity" velocity s = Some s1
        ∧ entitySets s1 = entitySets s
        ∧ hasComponent s1 e0_stale "Velocity" = velocity
        ∧ getComponent s1 e0_stale "Velocity" = velocity
        ∧ entitySets (snd (getEntities "Velocity" s1)) !! "Velocity"
          = Some (fst (getEntities "Velocity" s1))
        ∧ EntitySet.contains (eid e0_stale) (fst (getEntities "Velocity" s1))
          = true
        ∧ NAdd e0 ∈ fst (getEntities "Velocity" s1)
        ∧ (∀ x, x ∈ fst (getEntities "Velocity" s1) →
             ∃ ent, x = NAdd ent ∧ entities s1 !! eid ent = Some ent
                    ∧ truthy (hasComponent s1 ent "Velocity") = true).
Proof.
  intros s.
  assert (reachable s) as H0 by (exists prog_lazy; reflexivity).
  assert (own_name "Velocity" = true) as Hown by reflexivity.
  assert (isLazySets s = true) as H1 by reflexivity.
  assert (entitySets s !! "Velocity" = None) as H2 by reflexivity.
  assert (entities s !! eid e0_stale = Some e0) as H3 by reflexivity.
  assert (truthy velocity = true) as H4 by reflexivity.
  split; [exact H0|]. split; [exact Hown|].
  split; [exact H1|]. split; [exact H2|].
  split; [exact H3|]. split; [exact H4|].
  exact (C7_lazy_set_backfill s e0_stale e0 "Velocity" velocity
           H0 Hown H1 H2 H3 H4).
Defined.

(** C7 as stated fails: with the value 0, [hasComponent] returns 0, which
    is falsy, and the set that [getEntities] back-fills stays empty. *)
Lemma C7_counterexample :
  let s := after prog_lazy in
  run prog_lazy EntitySystem = Some s
  ∧ isLazySets s = true
  ∧ entitySets s !! "Velocity" = None
  ∧ entities s !! eid e0 = Some e0
  ∧ ((λ s1, (hasComponent s1 e0 "Velocity",
             truthy (hasComponent s1 e0 "Velocity"),
             fst (getEntities "Velocity" s1),
             EntitySet.contains (eid e0) (fst (getEntities "Velocity" s1))))
       <$> setComponent e0 "Velocity" (VNum 0) s)
    = Some (VNum 0, false, [], false).
Proof. vm_compute. repeat split; congruence. Qed.

(** ** Removed entities across the flush *)

(** The component of an entity removed with [removeEntity] is still
    returned after the flush. *)
Lemma getComponent_removeEntity_flush s e n l v :
  entityComponentMap s !! eid e = Some l →
  obj_at (heap s) l !! n = Some v →
  truthy v = true →
  getComponent (flushChanges (removeEntity e s)) e n = v.
Proof.
  intros Hl Hv Ht. unfold getComponent, get_prop. simpl.
  destruct (removeEntity_frame e s) as (_ & -> & -> & _).
  rewrite Hl, Hv. simpl. by rewrite Ht.
Qed.

(** ** Separation is kept by every operation *)

Lemma Sep_same_registries s s' :
  entityComponentMap s' = entityComponentMap s →
  removedEntityComponentMap s' = removedEntityComponentMap s →
  Sep s → Sep s'.
Proof. intros Ha Hr [H1 H2 H3 H4]. split; rewrite ?Ha, ?Hr; done. Qed.

Lemma Sep_EntitySystem : Sep EntitySystem.
Proof.
  split; simpl; intros *; rewrite ?lookup_empty; try done;
    by intros [? ?].
Qed.

Lemma Sep_createEntity id s :
  Inv s → Sep s → Sep (snd (createEntity id s)).
Proof.
  intros HI [H1 H2 H3 H4]. split; simpl.
  - intros i j l.
    destruct (decide (counter s = i)) as [<-|Hi];
      destruct (decide (counter s = j)) as [<-|Hj]; [done|..];
      rewrite ?lookup_insert_eq, ?lookup_insert_ne by done.
    + intros [= <-] Hl%(inv_active_loc s HI). lia.
    + intros Hl%(inv_active_loc s HI) [= <-]. lia.
    + apply H1.
  - intros i j l Hi. destruct (decide (counter s = j)) as [<-|Hj].
    + rewrite lookup_insert_eq. intros [= <-].
      apply (inv_removed_loc s HI) in Hi. lia.
    + rewrite lookup_insert_ne by done. by apply H2.
  - apply H3.
  - intros i Hi%H4. rewrite lookup_insert_is_Some.
    destruct (decide (counter s = i)); eauto.
Qed.

Lemma Sep_removeEntity e s : Inv s → Sep s → Sep (removeEntity e s).
Proof.
  intros HI HS. unfold removeEntity.
  destruct (entities s !! eid e) as [stored|] eqn:He; [|done].
  destruct (inv_map s HI (eid e)) as [l Hl]; [by eauto|]. rewrite Hl.
  destruct HS as [H1 H2 H3 H4]. split; simpl.
  - apply H1.
  - intros i j l'. destruct (decide (eid e = i)) as [<-|Hi].
    + rewrite lookup_insert_eq. intros [= <-] Hj. by apply (H1 _ _ l).
    + rewrite lookup_insert_ne by done. apply H2.
  - intros i j l'.
    destruct (decide (eid e = i)) as [<-|Hi];
      destruct (decide (eid e = j)) as [<-|Hj]; [done|..];
      rewrite ?lookup_insert_eq, ?lookup_insert_ne by done.
    + intros [= <-] Hj'. symmetry. by apply (H2 _ _ l).
    + intros Hi' [= <-]. by apply (H2 _ _ l).
    + apply H3.
  - intros i. rewrite lookup_insert_is_Some.
    intros [<-|[_ Hi]]; [by eauto|by apply H4].
Qed.

Lemma Sep_removeComponent e n s : Inv s → Sep s → Sep (removeComponent e n s).
Proof.
  intros HI HS.
  destruct (entityComponentMap s !! eid e) as [l|] eqn:Hl;
    [|by rewrite removeComponent_no_map].
  destruct (removeComponent_frame e n s) as (_ & _ & Hmap & _).
  destruct (removedEntityComponentMap s !! eid e) as [r|] eqn:Hr.
  - destruct (removeComponent_staged e n s l r Hl Hr) as [_ Hrem].
    by apply (Sep_same_registries s).
  - destruct (removeComponent_fresh e n s l Hl Hr) as [_ Hrem].
    destruct HS as [H1 H2 H3 H4]. split; rewrite ?Hmap, ?Hrem.
    + apply H1.
    + intros i j l'. destruct (decide (eid e = i)) as [<-|Hi].
      * rewrite lookup_insert_eq.
        intros [= <-] Hj%(inv_active_loc s HI). lia.
      * rewrite lookup_insert_ne by done. apply H2.
    + intros i j l'.
      destruct (decide (eid e = i)) as [<-|Hi];
        destruct (decide (eid e = j)) as [<-|Hj]; [done|..];
        rewrite ?lookup_insert_eq, ?lookup_insert_ne by done.
      * intros [= <-] Hj'%(inv_removed_loc s HI). lia.
      * intros Hi'%(inv_removed_loc s HI) [= <-]. lia.
      * apply H3.
    + intros i. rewrite lookup_insert_is_Some.
      intros [<-|[_ Hi]]; [by eauto|by apply H4].
Qed.

Lemma Sep_flushChanges s : Sep s → Sep (flushChanges s).
Proof.
  intros [H1 H2 H3 H4]. split; simpl; intros *; rewrite ?lookup_empty;
    try done; first [apply H1|by intros [? ?]].
Qed.

(** The two invariants together. *)
Lemma removeAll_fold_good keys s :
  Inv s → Sep s →
  Inv (foldl removeAll_step s keys) ∧ Sep (foldl removeAll_step s keys).
Proof.
  revert s. induction keys as [|k keys IH]; intros s HI HS; [done|].
  simpl. apply IH.
  - by apply Inv_removeAll_step.
  - unfold removeAll_step. destruct (entities s !! k); [|done].
    by apply Sep_removeEntity.
Qed.

Lemma Sep_exec o s s' : Inv s → Sep s → exec o s = Some s' → Sep s'.
Proof.
  intros HI HS. destruct o as [b|id|e n v|e n|e|n| |]; cbn [exec].
  - intros [= <-]. by apply (Sep_same_registries s).
  - intros Hs'; apply (inj Some) in Hs'; subst s'. by apply Sep_createEntity.
  - intros (_ & _ & Ha & Hr & _)%setComponent_frame.
    by apply (Sep_same_registries s).
  - intros Hs'; apply (inj Some) in Hs'; subst s'.
    by apply Sep_removeComponent.
  - intros Hs'; apply (inj Some) in Hs'; subst s'. by apply Sep_removeEntity.
  - intros Hs'; apply (inj Some) in Hs'; subst s'.
    destruct (getEntities_frame n s) as (_ & _ & Ha & Hr & _).
    by apply (Sep_same_registries s).
  - intros [= <-]. by apply Sep_flushChanges.
  - intros Hs'; apply (inj Some) in Hs'; subst s'.
    by apply removeAll_fold_good.
Qed.

Lemma Sep_run ops s s' : Inv s → Sep s → run ops s = Some s' → Sep s'.
Proof.
  revert s. induction ops as [|o ops IH]; intros s HI HS; simpl.
  - by intros [= <-].
  - destruct (exec o s) as [s1|] eqn:Ho; [|done].
    apply IH; [by eapply Inv_exec|by eapply Sep_exec].
Qed.

Lemma reachable_Sep s : reachable s → Sep s.
Proof.
  intros [ops Hrun].
  eapply Sep_run; [apply Inv_EntitySystem|apply Sep_EntitySystem|done].
Qed.

Lemma reachable_in_mode_reachable b s : reachable_in_mode b s → reachable s.
Proof. intros (ops & _ & Hrun). by exists (OpSetLazy b :: ops). Qed.

(** ** Reading through the observations *)

Lemma getComponent_pick s e n :
  getComponent s e n
  = pick (active_value s (eid e) n) (staged_value s (eid e) n).
Proof.
  unfold getComponent, getComponent_removed, pick, stale_or_null,
    active_value, staged_value, get_prop.
  assert (∀ o : option value,
            (if truthy (default VUndefined o) then default VUndefined o
             else VNull)
            = match o with
              | Some v => if truthy v then v else VNull
              | None => VNull
              end) as Hstale by (by intros [v|]).
  destruct (removedEntityComponentMap s !! eid e) as [r|];
    destruct (entityComponentMap s !! eid e) as [l|];
    rewrite ?Hstale; try done;
    by destruct (obj_at (heap s) l !! n) as [v|].
Qed.

Lemma hasComponent_active_value s e n :
  hasComponent s e n
  = match entityComponentMap s !! eid e with
    | Some _ => default VUndefined (active_value s (eid e) n)
    | None => VBool false
    end.
Proof.
  unfold hasComponent, active_value, get_prop.
  by destruct (entityComponentMap s !! eid e).
Qed.

(** ** What each operation does to the observations *)

Lemma setComponent_heap e n v s s' l :
  is_Some (entities s !! eid e) →
  entityComponentMap s !! eid e = Some l →
  setComponent e n v s = Some s' →
  heap s' = <[l := <[n := v]> (obj_at (heap s) l)]> (heap s).
Proof.
  intros [stored He] Hl. unfold setComponent, update_set.
  rewrite He, Hl. simpl.
  destruct (entitySets s !! n); [by intros [= <-]|].
  destruct (isLazySets s); by intros [= <-].
Qed.

Lemma setComponent_values e n v s s' :
  Inv s → Sep s → is_Some (entities s !! eid e) →
  setComponent e n v s = Some s' →
  (∀ id' n', active_value s' id' n'
             = if decide (id' = eid e ∧ n' = n) then Some v
               else active_value s id' n')
  ∧ (∀ id' n', staged_value s' id' n' = staged_value s id' n').
Proof.
  intros HI HS He Hs'.
  destruct (inv_map s HI _ He) as [l Hl].
  pose proof (inv_active_loc s HI _ _ Hl) as Hlt.
  pose proof (setComponent_heap e n v s s' l He Hl Hs') as Hheap.
  destruct (setComponent_frame e n v s s' Hs') as (_ & _ & Ha & Hr & _).
  split; intros id' n'.
  - unfold active_value. rewrite Ha, Hheap.
    destruct (entityComponentMap s !! id') as [l'|] eqn:Hl';
      [|case_decide as Hd; [destruct Hd as [-> _]; congruence|done]].
    destruct (decide (l' = l)) as [->|Hne].
    + assert (id' = eid e) as -> by by apply (sep_active s HS _ _ l).
      rewrite obj_at_insert_eq by done.
      destruct (decide (n' = n)) as [->|Hn].
      * rewrite lookup_insert_eq. by rewrite decide_True.
      * rewrite lookup_insert_ne by done. rewrite decide_False; [done|].
        by intros [_ ?].
    + rewrite obj_at_insert_ne by done. rewrite decide_False; [done|].
      intros [-> _]. congruence.
  - unfold staged_value. rewrite Hr, Hheap.
    destruct (removedEntityComponentMap s !! id') as [r'|] eqn:Hr'; [|done].
    rewrite obj_at_insert_ne; [done|]. intros <-.
    assert (id' = eid e) as -> by by apply (sep_removed s HS _ _ l).
    by apply (inv_own s HI (eid e) l).
Qed.

Lemma obj_at_stage_delete (h : list props) r l x n l0 :
  r < length h → l < length h →
  let h2 := <[r := <[n := x]> (obj_at h r)]> h in
  obj_at (<[l := delete n (obj_at h2 l)]> h2) l0
  = if decide (l0 = l) then delete n (obj_at h l)
    else if decide (l0 = r) then <[n := x]> (obj_at h r)
    else obj_at h l0.
Proof.
  intros Hr Hl h2. assert (l < length h2) by (unfold h2; by rewrite length_insert).
  destruct (decide (l0 = l)) as [->|Hne].
  - rewrite obj_at_insert_eq by done. unfold h2.
    destruct (decide (r = l)) as [->|Hrl].
    + rewrite obj_at_insert_eq by done. by rewrite delete_insert_eq.
    + by rewrite obj_at_insert_ne.
  - rewrite obj_at_insert_ne by done. unfold h2.
    destruct (decide (l0 = r)) as [->|Hr0].
    + by rewrite obj_at_insert_eq.
    + by rewrite obj_at_insert_ne.
Qed.

Lemma removeComponent_values e n s l :
  Inv s → Sep s → entityComponentMap s !! eid e = Some l →
  (∀ id' n', active_value (removeComponent e n s) id' n'
             = if decide (id' = eid e ∧ n' = n) then None
               else active_value s id' n')
  ∧ (∀ id' n', (id' ≠ eid e ∨ n' ≠ n) →
       staged_value (removeComponent e n s) id' n' = staged_value s id' n')
  ∧ staged_value (removeComponent e n s) (eid e) n
    = if decide (removedEntityComponentMap s !! eid e = Some l) then None
      else Some (get_prop (obj_at (heap s) l) n).
Proof.
  intros HI HS Hl.
  pose proof (inv_active_loc s HI _ _ Hl) as Hlt.
  destruct (removeComponent_frame e n s) as (_ & _ & Hmap & _).
  destruct (removedEntityComponentMap s !! eid e) as [r|] eqn:Hr.
  - destruct (removeComponent_staged e n s l r Hl Hr) as [Hheap Hrem].
    pose proof (inv_removed_loc s HI _ _ Hr) as Hrt.
    unfold active_value, staged_value. rewrite Hmap, Hrem, Hheap.
    split; [|split].
    + intros id' n'.
      destruct (entityComponentMap s !! id') as [l'|] eqn:Hl';
        [|case_decide as Hd; [destruct Hd as [-> _]; congruence|done]].
      rewrite obj_at_stage_delete by done.
      destruct (decide (l' = l)) as [->|Hne].
      * assert (id' = eid e) as -> by by apply (sep_active s HS _ _ l).
        destruct (decide (n' = n)) as [->|Hn].
        -- rewrite lookup_delete_eq. by rewrite decide_True.
        -- rewrite lookup_delete_ne by done. rewrite decide_False; [done|].
           by intros [_ ?].
      * assert (id' ≠ eid e) as Hid by (intros ->; congruence).
        rewrite (decide_False (P := id' = eid e ∧ n' = n)) by (by intros [? _]).
        destruct (decide (l' = r)) as [->|Hr']; [|done].
        exfalso. apply Hid. symmetry. by apply (sep_removed s HS _ _ r).
    + intros id' n' Hor.
      destruct (removedEntityComponentMap s !! id') as [r'|] eqn:Hr'; [|done].
      rewrite obj_at_stage_delete by done.
      destruct (decide (id' = eid e)) as [->|Hid].
      * destruct Hor as [?|Hn]; [done|]. simplify_eq.
        destruct (decide (r = l)) as [->|Hrl].
        -- by rewrite lookup_delete_ne.
        -- rewrite decide_True by done. by rewrite lookup_insert_ne.
      * destruct (decide (r' = l)) as [->|Hrl].
        { exfalso. apply Hid. by apply (sep_removed s HS _ _ l). }
        destruct (decide (r' = r)) as [->|Hrr]; [|done].
        exfalso. apply Hid. by apply (sep_removed_inj s HS _ _ r).
    + rewrite Hr. rewrite obj_at_stage_delete by done.
      destruct (decide (r = l)) as [->|Hrl].
      * rewrite lookup_delete_eq. by rewrite decide_True.
      * rewrite decide_True by done. rewrite lookup_insert_eq.
        rewrite decide_False; [done|]. by intros [= ->].
  - destruct (removeComponent_fresh e n s l Hl Hr) as [Hheap Hrem].
    unfold active_value, staged_value. rewrite Hmap, Hrem, Hheap.
    assert (length (heap s) < length (heap s ++ [∅])) as Hnew
      by (rewrite length_app; simpl; lia).
    assert (l < length (heap s ++ [∅])) as Hl1
      by (rewrite length_app; simpl; lia).
    split; [|split].
    + intros id' n'.
      destruct (entityComponentMap s !! id') as [l'|] eqn:Hl';
        [|case_decide as Hd; [destruct Hd as [-> _]; congruence|done]].
      pose proof (inv_active_loc s HI _ _ Hl') as Hlt'.
      rewrite obj_at_stage_delete by done.
      rewrite !obj_at_app_l by done.
      destruct (decide (l' = l)) as [->|Hne].
      * assert (id' = eid e) as -> by by apply (sep_active s HS _ _ l).
        destruct (decide (n' = n)) as [->|Hn].
        -- rewrite lookup_delete_eq. by rewrite decide_True.
        -- rewrite lookup_delete_ne by done. rewrite decide_False; [done|].
           by intros [_ ?].
      * assert (id' ≠ eid e) as Hid by (intros ->; congruence).
        rewrite (decide_False (P := id' = eid e ∧ n' = n)) by (by intros [? _]).
        rewrite decide_False by lia. by rewrite obj_at_app_l.
    + intros id' n' Hor.
      destruct (decide (id' = eid e)) as [->|Hid].
      * destruct Hor as [?|Hn]; [done|].
        rewrite lookup_insert_eq, Hr.
        rewrite obj_at_stage_delete by done.
        rewrite decide_False by lia. rewrite decide_True by done.
        rewrite lookup_insert_ne by done.
        by rewrite obj_at_app_new.
      * rewrite lookup_insert_ne by done.
        destruct (removedEntityComponentMap s !! id') as [r'|] eqn:Hr'; [|done].
        pose proof (inv_removed_loc s HI _ _ Hr') as Hrt'.
        rewrite obj_at_stage_delete by done.
        destruct (decide (r' = l)) as [->|Hrl].
        { exfalso. apply Hid. by apply (sep_removed s HS _ _ l). }
        rewrite decide_False by lia. by rewrite obj_at_app_l.
    + rewrite lookup_insert_eq. rewrite obj_at_stage_delete by done.
      rewrite decide_False by lia. rewrite decide_True by done.
      rewrite lookup_insert_eq. rewrite obj_at_app_l by done.
      by rewrite decide_False.
Qed.

Lemma createEntity_values id s :
  Inv s →
  (∀ id' n', active_value (snd (createEntity id s)) id' n'
             = if decide (id' = counter s) then None
               else active_value s id' n')
  ∧ (∀ id' n', staged_value (snd (createEntity id s)) id' n'
               = staged_value s id' n').
Proof.
  intros HI. unfold active_value, staged_value. simpl. split; intros id' n'.
  - destruct (decide (id' = counter s)) as [->|Hne].
    + by rewrite lookup_insert_eq, obj_at_app_new.
    + rewrite lookup_insert_ne by done.
      destruct (entityComponentMap s !! id') as [l'|] eqn:Hl'; [|done].
      rewrite obj_at_app_l; [done|]. by apply (inv_active_loc s HI id').
  - destruct (removedEntityComponentMap s !! id') as [r'|] eqn:Hr'; [|done].
    rewrite obj_at_app_l; [done|]. by apply (inv_removed_loc s HI id').
Qed.

Lemma removeEntity_values e s :
  Inv s → is_Some (entities s !! eid e) →
  (∀ id' n', active_value (removeEntity e s) id' n' = active_value s id' n')
  ∧ (∀ id' n', staged_value (removeEntity e s) id' n'
               = if decide (id' = eid e) then active_value s (eid e) n'
                 else staged_value s id' n').
Proof.
  intros HI [stored He]. destruct (inv_map s HI (eid e)) as [l Hl]; [by eauto|].
  unfold removeEntity, active_value, staged_value. rewrite He, Hl. simpl.
  split; [done|]. intros id' n'.
  destruct (decide (id' = eid e)) as [->|Hne].
  - by rewrite lookup_insert_eq.
  - by rewrite lookup_insert_ne.
Qed.

Lemma getEntities_values n s id' n' :
  active_value (snd (getEntities n s)) id' n' = active_value s id' n'
  ∧ staged_value (snd (getEntities n s)) id' n' = staged_value s id' n'.
Proof.
  destruct (getEntities_frame n s) as (_ & _ & Ha & Hr & Hh).
  unfold active_value, staged_value. by rewrite Ha, Hr, Hh.
Qed.



(** ** Writing and reading a component *)



(** X2: [setComponent(e, n, v)] leaves every other component alone: for any
    entity and name other than the pair written, [hasComponent] and
    [getComponent] answer as before, and [hasEntity] answers as before for
    every handle. *)
Theorem X2_setComponent_leaves_others (s s' : State) (e e' : Entity)
    (n n' : string) (v : value) :
  reachable s →
  setComponent e n v s = Some s' →
  eid e' ≠ eid e ∨ n' ≠ n →
  hasComponent s' e' n' = hasComponent s e' n'
  ∧ getComponent s' e' n' = getComponent s e' n'
  ∧ (∀ x, hasEntity s' x = hasEntity s x).
Proof.
  intros Hreach Hs' Hother.
  pose proof (reachable_Inv s Hreach) as HI.
  pose proof (reachable_Sep s Hreach) as HS.
  destruct (entities s !! eid e) as [stored|] eqn:He;
    [|rewrite setComponent_inactive in Hs' by done; by simplify_eq].
  destruct (setComponent_values e n v s s' HI HS) as [Hact Hst];
    [by eauto|done|].
  destruct (setComponent_frame e n v s s' Hs') as (_ & Hents & Ha & _).
  assert (¬ (eid e' = eid e ∧ n' = n)) as Hno by (intros [? ?]; by destruct Hother).
  split; [|split].
  - rewrite !hasComponent_active_value, Ha, Hact. by rewrite decide_False.
  - rewrite !getComponent_pick, Hact, Hst. by rewrite decide_False.
  - intros x. unfold hasEntity. by rewrite Hents.
Qed.

Lemma X2_witness :
  let s := after prog_positioned in
  reachable s
  ∧ setComponent e0 "Velocity" velocity s
    = Some (after (prog_positioned ++ [OpSetComponent e0 "Velocity" velocity]))
  ∧ (eid e0 ≠ eid e0 ∨ "Position" ≠ "Velocity")
  ∧ hasComponent
      (after (prog_positioned ++ [OpSetComponent e0 "Velocity" velocity]))
      e0 "Position"
    = hasComponent s e0 "Position"
  ∧ getComponent
      (after (prog_positioned ++ [OpSetComponent e0 "Velocity" velocity]))
      e0 "Position"
    = getComponent s e0 "Position"
  ∧ (∀ x, hasEntity
            (after (prog_positioned ++ [OpSetComponent e0 "Velocity" velocity]))
            x
          = hasEntity s x).
Proof.
  intros s.
  assert (reachable s) as H0 by (exists prog_positioned; vm_compute; reflexivity).
  assert (setComponent e0 "Velocity" velocity s
          = Some (after (prog_positioned
                           ++ [OpSetComponent e0 "Velocity" velocity])))
    as H1 by (vm_compute; reflexivity).
  assert (eid e0 ≠ eid e0 ∨ "Position" ≠ "Velocity") as H2
    by (right; discriminate).
  split; [exact H0|]. split; [exact H1|]. split; [exact H2|].
  exact (X2_setComponent_leaves_others s _ e0 e0 "Velocity" "Position"
           velocity H0 H1 H2).
Defined.

(** X3: [removeComponent(e, n)] leaves every other component alone: for any
    entity and name other than the pair removed, [hasComponent] and
    [getComponent] answer as before; the entity table is not touched. *)
Theorem X3_removeComponent_leaves_others (s : State) (e e' : Entity)
    (n n' : string) :
  reachable s →
  eid e' ≠ eid e ∨ n' ≠ n →
  hasComponent (removeComponent e n s) e' n' = hasComponent s e' n'
  ∧ getComponent (removeComponent e n s) e' n' = getComponent s e' n'
  ∧ entities (removeComponent e n s) = entities s.
Proof.
  intros Hreach Hother.
  pose proof (reachable_Inv s Hreach) as HI.
  pose proof (reachable_Sep s Hreach) as HS.
  destruct (entityComponentMap s !! eid e) as [l|] eqn:Hl;
    [|by rewrite removeComponent_no_map].
  destruct (removeComponent_values e n s l HI HS Hl) as (Hact & Hst & _).
  destruct (removeComponent_frame e n s) as (_ & Hents & Ha & _).
  assert (¬ (eid e' = eid e ∧ n' = n)) as Hno by (intros [? ?]; by destruct Hother).
  split; [|split; [|done]].
  - rewrite !hasComponent_active_value, Ha, Hact. by rewrite decide_False.
  - rewrite !getComponent_pick, Hact, Hst by done. by rewrite decide_False.
Qed.

Lemma X3_witness :
  let s := after prog_positioned in
  reachable s
  ∧ (eid e0 ≠ eid e0 ∨ "Position" ≠ "Velocity")
  ∧ hasComponent (removeComponent e0 "Velocity" s) e0 "Position"
    = hasComponent s e0 "Position"
  ∧ getComponent (removeComponent e0 "Velocity" s) e0 "Position"
    = getComponent s e0 "Position"
  ∧ entities (removeComponent e0 "Velocity" s) = entities s.
Proof.
  intros s.
  assert (reachable s) as H0 by (exists prog_positioned; vm_compute; reflexivity).
  assert (eid e0 ≠ eid e0 ∨ "Position" ≠ "Velocity") as H2
    by (right; discriminate).
  split; [exact H0|]. split; [exact H2|].
  exact (X3_removeComponent_leaves_others s e0 e0 "Velocity" "Position"
           H0 H2).
Defined.

(** X4: removing the same component twice within a tick loses it.
    [removeComponent] stages whatever the active list holds under the name,
    so, for a name outside [Object.prototype], the second call stages
    [undefined] over the value the first call had kept, and [getComponent]
    returns [null] although no flush has happened. *)
Theorem X4_removeComponent_twice_loses_value (s : State) (e : Entity)
    (n : string) :
  reachable s →
  own_name n = true →
  getComponent (removeComponent e n (removeComponent e n s)) e n = VNull.
Proof.
  intros Hreach _.
  pose proof (reachable_Inv s Hreach) as HI.
  pose proof (reachable_Sep s Hreach) as HS.
  destruct (entityComponentMap s !! eid e) as [l|] eqn:Hl.
  - set (s1 := removeComponent e n s).
    assert (Inv s1) as HI1 by by apply Inv_removeComponent.
    assert (Sep s1) as HS1 by by apply Sep_removeComponent.
    destruct (removeComponent_frame e n s) as (_ & _ & Ha & _).
    assert (entityComponentMap s1 !! eid e = Some l) as Hl1
      by (unfold s1; by rewrite Ha).
    destruct (removeComponent_values e n s l HI HS Hl) as (Hact & _ & _).
    destruct (removeComponent_values e n s1 l HI1 HS1 Hl1)
      as (Hact1 & _ & Hst1).
    assert (obj_at (heap s1) l !! n = None) as Hgone
      by by apply removeComponent_active_list.
    rewrite getComponent_pick, Hact1, Hst1.
    rewrite decide_True by done. unfold get_prop. rewrite Hgone.
    by case_decide.
  - rewrite (removeComponent_no_map e n s Hl).
    rewrite (removeComponent_no_map e n s Hl).
    rewrite getComponent_pick. unfold active_value, staged_value.
    rewrite Hl.
    destruct (removedEntityComponentMap s !! eid e) as [r|] eqn:Hr; [|done].
    destruct (sep_removed_map s HS (eid e)) as [l' Hl']; [by eauto|].
    congruence.
Qed.

Lemma X4_witness :
  let s := after prog_positioned in
  reachable s
  ∧ own_name "Position" = true
  ∧ getComponent (removeComponent e0 "Position" s) e0 "Position" = position
  ∧ getComponent
      (removeComponent e0 "Position" (removeComponent e0 "Position" s))
      e0 "Position" = VNull.
Proof.
  intros s.
  assert (reachable s) as H0 by (exists prog_positioned; vm_compute; reflexivity).
  assert (own_name "Position" = true) as Hown by reflexivity.
  split; [exact H0|]. split; [exact Hown|]. split; [vm_compute; reflexivity|].
  exact (X4_removeComponent_twice_loses_value s e0 "Position" H0 Hown).
Defined.

(** ** Removing an entity *)

(** X5: after [removeEntity(e)] on an active entity of a reachable state,
    [hasEntity] is false for every handle with the id of [e]; no existing
    entity set contains the id; [getComponent(e, n)] returns the value the
    active list held when it is truthy and [null] otherwise, so a value that
    [removeComponent] had staged earlier in the tick is dropped; and entities
    with another id answer [hasEntity], [hasComponent] and [getComponent] as
    before. *)
Theorem X5_removeEntity_effects (s : State) (e stored : Entity) :
  reachable s →
  entities s !! eid e = Some stored →
  (∀ x, eid x = eid e → hasEntity (removeEntity e s) x = false)
  ∧ (∀ n es, entitySets (removeEntity e s) !! n = Some es →
       EntitySet.contains (eid e) es = false)
  ∧ (∀ n, getComponent (removeEntity e s) e n
          = if truthy (hasComponent s e n) then hasComponent s e n
            else VNull)
  ∧ (∀ x n, eid x ≠ eid e →
       hasEntity (removeEntity e s) x = hasEntity s x
       ∧ hasComponent (removeEntity e s) x n = hasComponent s x n
       ∧ getComponent (removeEntity e s) x n = getComponent s x n).
Proof.
  intros Hreach He.
  pose proof (reachable_Inv s Hreach) as HI.
  destruct (inv_map s HI (eid e)) as [l Hl]; [by eauto|].
  destruct (removeEntity_values e s HI) as [Hact Hst]; [by eauto|].
  destruct (removeEntity_frame e s) as (_ & Ha & _).
  assert (entities (removeEntity e s) = delete (eid e) (entities s)) as Hents.
  { unfold removeEntity. rewrite He. by destruct (entityComponentMap s !! eid e). }
  assert (entitySets (removeEntity e s) = EntitySet.remove e <$> entitySets s)
    as Hsets.
  { unfold removeEntity. rewrite He. by destruct (entityComponentMap s !! eid e). }
  split; [|split; [|split]].
  - intros x Hx. unfold hasEntity. by rewrite Hents, Hx, lookup_delete_eq.
  - intros n es. rewrite Hsets, lookup_fmap.
    destruct (entitySets s !! n) as [es0|]; [|done].
    intros [= <-]. cbn. by rewrite Nat.eqb_refl.
  - intros n. rewrite getComponent_pick, Hact, Hst, decide_True by done.
    rewrite hasComponent_active_value, Hl.
    unfold pick, stale_or_null.
    by destruct (active_value s (eid e) n) as [v|]; cbn;
      [destruct (truthy v)|].
  - intros x n Hx. split; [|split].
    + unfold hasEntity. by rewrite Hents, lookup_delete_ne.
    + by rewrite !hasComponent_active_value, Ha, Hact.
    + by rewrite !getComponent_pick, Hact, Hst, decide_False.
Qed.

Lemma X5_witness :
  let s := after prog_positioned in
  reachable s
  ∧ entities s !! eid e0_stale = Some e0
  ∧ (∀ x, eid x = eid e0_stale → hasEntity (removeEntity e0_stale s) x = false)
  ∧ (∀ n es, entitySets (removeEntity e0_stale s) !! n = Some es →
       EntitySet.contains (eid e0_stale) es = false)
  ∧ (∀ n, getComponent (removeEntity e0_stale s) e0_stale n
          = if truthy (hasComponent s e0_stale n)
            then hasComponent s e0_stale n else VNull)
  ∧ (∀ x n, eid x ≠ eid e0_stale →
       hasEntity (removeEntity e0_stale s) x = hasEntity s x
       ∧ hasComponent (removeEntity e0_stale s) x n = hasComponent s x n
       ∧ getComponent (removeEntity e0_stale s) x n = getComponent s x n).
Proof.
  intros s.
  assert (reachable s) as H0
    by (exists prog_positioned; vm_compute; reflexivity).
  assert (entities s !! eid e0_stale = Some e0) as H1
    by (vm_compute; reflexivity).
  split; [exact H0|]. split; [exact H1|].
  exact (X5_removeEntity_effects s e0_stale e0 H0 H1).
Defined.

(** ** The flush *)

(** X7: a component removed with [removeComponent] does not survive the
    flush: in a reachable state, for a name outside [Object.prototype],
    [getComponent(e, n)] is [null] after [removeComponent(e, n)] and
    [flushChanges], whatever was staged. In general [flushChanges] leaves
    [hasComponent] as it was, and after it [getComponent] returns what
    [hasComponent] returns when that is truthy and [null] otherwise: no
    stale value is read after a flush. *)
Theorem X7_flush_forgets_removed_component (s : State) (e : Entity)
    (n : string) :
  reachable s →
  own_name n = true →
  getComponent (flushChanges (removeComponent e n s)) e n = VNull
  ∧ (∀ s0 e' n', hasComponent (flushChanges s0) e' n' = hasComponent s0 e' n'
                 ∧ getComponent (flushChanges s0) e' n'
                   = if truthy (hasComponent s0 e' n')
                     then hasComponent s0 e' n' else VNull).
Proof.
  intros HI%reachable_Inv _.
  split; [by apply getComponent_removeComponent_flush|].
  intros s0 e' n'. split; [done|].
  unfold getComponent, getComponent_removed, hasComponent. cbn.
  rewrite lookup_empty.
  destruct (entityComponentMap s0 !! eid e') as [l|]; [|done].
  by destruct (truthy _).
Qed.

Lemma X7_witness :
  let s := after prog_positioned in
  reachable s
  ∧ own_name "Position" = true
  ∧ getComponent (removeComponent e0 "Position" s) e0 "Position" = position
  ∧ getComponent (flushChanges (removeComponent e0 "Position" s)) e0 "Position"
    = VNull
  ∧ (∀ s0 e' n', hasComponent (flushChanges s0) e' n' = hasComponent s0 e' n'
                 ∧ getComponent (flushChanges s0) e' n'
                   = if truthy (hasComponent s0 e' n')
                     then hasComponent s0 e' n' else VNull).
Proof.
  intros s.
  assert (reachable s) as H0
    by (exists prog_positioned; vm_compute; reflexivity).
  assert (own_name "Position" = true) as Hown by reflexivity.
  split; [exact H0|]. split; [exact Hown|]. split; [vm_compute; reflexivity|].
  exact (X7_flush_forgets_removed_component s e0 "Position" H0 Hown).
Defined.

(** ** Queries *)

(** X8: [getEntities(n)] is idempotent: a second call returns the same set
    and leaves the state as the first call left it. The call changes nothing
    but the table of sets, and there only the entry of [n]. *)
Theorem X8_getEntities_idempotent (n : string) (s : State) :
  getEntities n (snd (getEntities n s)) = getEntities n s
  ∧ entitySets (snd (getEntities n s)) !! n = Some (fst (getEntities n s))
  ∧ (∀ n', n' ≠ n →
       entitySets (snd (getEntities n s)) !! n' = entitySets s !! n')
  ∧ entities (snd (getEntities n s)) = entities s
  ∧ (∀ e n', hasComponent (snd (getEntities n s)) e n' = hasComponent s e n'
             ∧ getComponent (snd (getEntities n s)) e n'
               = getComponent s e n').
Proof.
  assert (entitySets (snd (getEntities n s)) !! n
          = Some (fst (getEntities n s))) as Hreg.
  { unfold getEntities. destruct (entitySets s !! n) eqn:Hn; [done|].
    cbn. by rewrite lookup_insert_eq. }
  split.
  { unfold getEntities at 1. rewrite Hreg.
    by destruct (getEntities n s). }
  split; [done|]. split.
  { intros n' Hn'. unfold getEntities. destruct (entitySets s !! n); [done|].
    cbn. by rewrite lookup_insert_ne. }
  destruct (getEntities_frame n s) as (_ & Hents & Ha & Hr & Hh).
  split; [done|]. intros e n'.
  unfold hasComponent, getComponent, getComponent_removed.
  by rewrite Ha, Hr, Hh.
Qed.

(** ** The stored entities in visiting order *)

Lemma NoDup_entity_keys (m : gmap nat Entity) : NoDup (entity_keys m).
Proof.
  unfold entity_keys. rewrite merge_sort_Permutation.
  apply NoDup_fst_map_to_list.
Qed.

Lemma entity_keys_empty : entity_keys ∅ = [].
Proof. unfold entity_keys. by rewrite map_to_list_empty. Qed.

Lemma elem_of_entity_list (m : gmap nat Entity) ent :
  ent ∈ entity_list m ↔ ∃ k, m !! k = Some ent.
Proof.
  unfold entity_list. rewrite list_elem_of_omap. split.
  - intros (k & _ & Hk). by exists k.
  - intros [k Hk]. exists k. split; [|done].
    apply elem_of_entity_keys. by eauto.
Qed.

(** The back-fill loop as a filter over the keys. *)
Lemma backfill_filter s n keys acc :
  foldl (backfill_step s n) acc keys
  = reverse (NAdd <$> filter (λ ent, truthy (hasComponent s ent n) = true)
                        (omap (λ k, entities s !! k) keys))
    ++ acc.
Proof.
  revert acc. induction keys as [|k keys IH]; intros acc; [done|].
  cbn [foldl]. rewrite IH. unfold backfill_step. cbn [omap list_omap].
  destruct (entities s !! k) as [ent|]; [|done].
  rewrite filter_cons.
  destruct (truthy (hasComponent s ent n)) eqn:Ht.
  - rewrite decide_True by done. rewrite fmap_cons, reverse_cons.
    by rewrite <- app_assoc.
  - by rewrite decide_False.
Qed.

Lemma contains_reverse_adds id (l : list Entity) :
  EntitySet.contains id (reverse (NAdd <$> l)) = true
  ↔ ∃ ent, ent ∈ l ∧ eid ent = id.
Proof.
  induction l as [|x l IH] using rev_ind.
  - split; [done|]. intros (ent & Hin & _). by apply elem_of_nil in Hin.
  - rewrite fmap_app, reverse_app. cbn.
    destruct (Nat.eqb_spec (eid x) id) as [Heq|Hne].
    + split; [|done]. intros _. exists x. split; [|done].
      apply elem_of_app. right. by apply list_elem_of_singleton.
    + rewrite IH. split.
      * intros (ent & Hin & Hid). exists ent. split; [|done].
        apply elem_of_app. by left.
      * intros (ent & [Hin|Hin%list_elem_of_singleton]%elem_of_app & Hid);
          [by exists ent|]. by subst.
Qed.

(** X9: when no set exists for a name [n] outside [Object.prototype], the
    set that [getEntities(n)] creates
    has received nothing but [add] calls: one for each active entity whose
    [hasComponent] is truthy, in the order the entity table is visited. It
    therefore contains an id exactly when an active entity with that id has
    the component, and carries no trace of removals that happened before the
    set existed. *)
Theorem X9_getEntities_backfill_exact (n : string) (s : State) :
  own_name n = true →
  entitySets s !! n = None →
  fst (getEntities n s)
  = reverse (NAdd <$> filter (λ ent, truthy (hasComponent s ent n) = true)
                        (entity_list (entities s)))
  ∧ (∀ id, EntitySet.contains id (fst (getEntities n s)) = true
           ↔ ∃ ent k, entities s !! k = Some ent ∧ eid ent = id
                      ∧ truthy (hasComponent s ent n) = true)
  ∧ (∀ x, x ∈ fst (getEntities n s) → ∃ ent, x = NAdd ent).
Proof.
  intros _ Hn.
  assert (fst (getEntities n s)
          = reverse (NAdd <$> filter (λ ent, truthy (hasComponent s ent n) = true)
                                (entity_list (entities s)))) as Hexact.
  { unfold getEntities. rewrite Hn. cbn [fst].
    rewrite backfill_filter. by rewrite app_nil_r. }
  split; [done|]. rewrite Hexact. split.
  - intros id. rewrite contains_reverse_adds. split.
    + intros (ent & [Ht [k Hk]%elem_of_entity_list]%list_elem_of_filter & Hid).
      by exists ent, k.
    + intros (ent & k & Hk & Hid & Ht). exists ent. split; [|done].
      apply list_elem_of_filter. split; [done|].
      apply elem_of_entity_list. by exists k.
  - intros x. rewrite elem_of_reverse, list_elem_of_fmap.
    intros (ent & -> & _). by exists ent.
Qed.

Lemma X9_witness :
  let s := snd (createEntity None (after prog_lazy)) in
  own_name "Velocity" = true
  ∧ entitySets s !! "Velocity" = None
  ∧ fst (getEntities "Velocity" s)
    = reverse (NAdd <$> filter
                          (λ ent, truthy (hasComponent s ent "Velocity") = true)
                          (entity_list (entities s)))
  ∧ (∀ id, EntitySet.contains id (fst (getEntities "Velocity" s)) = true
           ↔ ∃ ent k, entities s !! k = Some ent ∧ eid ent = id
                      ∧ truthy (hasComponent s ent "Velocity") = true)
  ∧ (∀ x, x ∈ fst (getEntities "Velocity" s) → ∃ ent, x = NAdd ent).
Proof.
  intros s.
  assert (own_name "Velocity" = true) as Hown by reflexivity.
  assert (entitySets s !! "Velocity" = None) as H0 by (vm_compute; reflexivity).
  split; [exact Hown|]. split; [exact H0|].
  exact (X9_getEntities_backfill_exact "Velocity" s Hown H0).
Defined.

(** ** Removing all entities *)

Lemma removeAll_fold_entities keys s k :
  Inv s →
  entities (foldl removeAll_step s keys) !! k
  = if decide (k ∈ keys) then None else entities s !! k.
Proof.
  revert s. induction keys as [|k0 keys IH]; intros s HI.
  - cbn. rewrite decide_False; [done|]. apply not_elem_of_nil.
  - cbn [foldl]. rewrite IH by by apply Inv_removeAll_step.
    assert (entities (removeAll_step s k0) !! k
            = if decide (k = k0) then None else entities s !! k) as Hstep.
    { unfold removeAll_step.
      destruct (entities s !! k0) as [ent|] eqn:Hk0.
      - pose proof (inv_id s HI _ _ Hk0) as Hid.
        assert (entities (removeEntity ent s) = delete k0 (entities s)) as ->.
        { unfold removeEntity. rewrite Hid, Hk0.
          by destruct (entityComponentMap s !! k0). }
        destruct (decide (k = k0)) as [->|Hne].
        + by rewrite lookup_delete_eq.
        + by rewrite lookup_delete_ne.
      - destruct (decide (k = k0)) as [->|Hne]; done. }
    rewrite Hstep.
    destruct (decide (k = k0)) as [->|Hne].
    + rewrite (decide_True (P := k0 ∈ k0 :: keys)) by by left.
      by case_decide.
    + destruct (decide (k ∈ keys)) as [Hin|Hnin].
      * rewrite decide_True; [done|]. by right.
      * rewrite decide_False; [done|].
        intros [?|?]%elem_of_cons; done.
Qed.

Lemma removeAll_fold_removeEntity keys s :
  NoDup keys → Inv s →
  foldl removeAll_step s keys
  = foldl (λ s ent, removeEntity ent s) s
      (omap (λ k, entities s !! k) keys).
Proof.
  intros Hnd. revert s.
  induction Hnd as [|k0 keys Hk0 Hnd IH]; intros s HI; [done|].
  cbn [foldl omap list_omap]. unfold removeAll_step at 2.
  destruct (entities s !! k0) as [ent|] eqn:Hent; [|by apply IH].
  cbn [foldl]. rewrite IH by by apply Inv_removeEntity.
  f_equal. apply list_omap_ext, Forall2_same_length_lookup_2; [done|].
  intros i k k' Hk Hk'. simplify_eq.
  pose proof (inv_id s HI _ _ Hent) as Hid.
  assert (k ≠ k0) as Hne.
  { intros ->. apply Hk0. by eapply list_elem_of_lookup_2. }
  unfold removeEntity. rewrite Hid, Hent.
  destruct (entityComponentMap s !! k0); cbn; by rewrite lookup_delete_ne.
Qed.

(** X6: in a reachable state [removeAllEntities] does what calling
    [removeEntity] on every stored entity, in the order the table is visited,
    does. Afterwards the entity table is empty, [hasEntity] is false for
    every handle, the id counter is where it was (so later ids do not repeat
    removed ones), and a second [removeAllEntities] changes nothing. *)
Theorem X6_removeAllEntities_effects (s : State) :
  reachable s →
  removeAllEntities s
  = foldl (λ s ent, removeEntity ent s) s (entity_list (entities s))
  ∧ getAllEntities (removeAllEntities s) = ∅
  ∧ (∀ x, hasEntity (removeAllEntities s) x = false)
  ∧ counter (removeAllEntities s) = counter s
  ∧ removeAllEntities (removeAllEntities s) = removeAllEntities s.
Proof.
  intros HI%reachable_Inv.
  assert (entities (removeAllEntities s) = ∅) as Hempty.
  { apply map_eq. intros k. rewrite lookup_empty.
    unfold removeAllEntities. rewrite removeAll_fold_entities by done.
    destruct (decide (k ∈ entity_keys (entities s))) as [Hin|Hnin]; [done|].
    destruct (entities s !! k) eqn:Hk; [|done].
    exfalso. apply Hnin, elem_of_entity_keys. by eauto. }
  split.
  { unfold removeAllEntities, entity_list.
    apply removeAll_fold_removeEntity; [apply NoDup_entity_keys|done]. }
  split; [done|]. split.
  { intros x. unfold hasEntity. by rewrite Hempty, lookup_empty. }
  split; [apply removeAllEntities_frame|].
  unfold removeAllEntities at 1. by rewrite Hempty, entity_keys_empty.
Qed.

Lemma X6_witness :
  let s := after prog_positioned in
  reachable s
  ∧ removeAllEntities s
    = foldl (λ s ent, removeEntity ent s) s (entity_list (entities s))
  ∧ getAllEntities (removeAllEntities s) = ∅
  ∧ (∀ x, hasEntity (removeAllEntities s) x = false)
  ∧ counter (removeAllEntities s) = counter s
  ∧ removeAllEntities (removeAllEntities s) = removeAllEntities s.
Proof.
  intros s.
  assert (reachable s) as H0
    by (exists prog_positioned; vm_compute; reflexivity).
  split; [exact H0|].
  exact (X6_removeAllEntities_effects s H0).
Defined.

(** ** The entity table *)

(** X13: in every reachable state the table [getAllEntities] returns maps
    each id to an entity carrying that id, handed out by the counter earlier;
    [getEntityByID] and [hasEntity] agree with it, and [hasEntity(e)] holds
    exactly when the table stores [e] itself under [e]'s id. Every id staged
    in the removed registry also has a component list in the active one. *)
Theorem X13_entity_table_wellformed (s : State) :
  reachable s →
  (∀ k ent, getAllEntities s !! k = Some ent →
     eid ent = k ∧ k < counter s
     ∧ getEntityByID s k = Some ent ∧ hasEntity s ent = true)
  ∧ (∀ e, hasEntity s e = true ↔ getAllEntities s !! eid e = Some e)
  ∧ (∀ k, is_Some (removedEntityComponentMap s !! k) →
          is_Some (entityComponentMap s !! k) ∧ k < counter s).
Proof.
  intros Hreach.
  pose proof (reachable_Inv s Hreach) as HI.
  pose proof (reachable_Sep s Hreach) as HS.
  unfold getAllEntities, getEntityByID. split; [|split].
  - intros k ent Hk. pose proof (inv_id s HI _ _ Hk) as Hid.
    split; [done|]. split; [apply (inv_below s HI); by eauto|].
    split; [done|]. unfold hasEntity, same_object.
    rewrite Hid, Hk. apply Nat.eqb_refl.
  - intros e. unfold hasEntity, same_object.
    destruct (entities s !! eid e) as [ent|] eqn:Hent; [|done].
    pose proof (inv_id s HI _ _ Hent) as Hid.
    rewrite Nat.eqb_eq. split.
    + intros Href. f_equal. destruct ent, e. cbn in *. by subst.
    + by intros [= ->].
  - intros k Hk. pose proof (sep_removed_map s HS k Hk) as Hmap.
    split; [done|]. by apply (inv_map_below s HI).
Qed.

Lemma X13_witness :
  let s := after prog_removed in
  reachable s
  ∧ (∀ k ent, getAllEntities s !! k = Some ent →
       eid ent = k ∧ k < counter s
       ∧ getEntityByID s k = Some ent ∧ hasEntity s ent = true)
  ∧ (∀ e, hasEntity s e = true ↔ getAllEntities s !! eid e = Some e)
  ∧ (∀ k, is_Some (removedEntityComponentMap s !! k) →
          is_Some (entityComponentMap s !! k) ∧ k < counter s).
Proof.
  intros s.
  assert (reachable s) as H0 by (exists prog_removed; vm_compute; reflexivity).
  split; [exact H0|].
  exact (X13_entity_table_wellformed s H0).
Defined.

(** X14: in a reachable state the entity [createEntity] returns is active
    ([hasEntity] is true, [getEntityByID] finds it) and has no component at
    all, not even a stale one: [hasComponent] is [undefined] and
    [getComponent] is [null] for every name outside [Object.prototype]. The
    call notifies no entity set and changes nothing for entities with another
    id. *)
Theorem X14_createEntity_fresh (id : option value) (s : State) :
  reachable s →
  hasEntity (snd (createEntity id s)) (fst (createEntity id s)) = true
  ∧ getEntityByID (snd (createEntity id s)) (eid (fst (createEntity id s)))
    = Some (fst (createEntity id s))
  ∧ (∀ n, own_name n = true →
          hasComponent (snd (createEntity id s)) (fst (createEntity id s)) n
          = VUndefined
          ∧ getComponent (snd (createEntity id s)) (fst (createEntity id s)) n
            = VNull)
  ∧ entitySets (snd (createEntity id s)) = entitySets s
  ∧ (∀ x n, eid x ≠ eid (fst (createEntity id s)) →
       hasEntity (snd (createEntity id s)) x = hasEntity s x
       ∧ hasComponent (snd (createEntity id s)) x n = hasComponent s x n
       ∧ getComponent (snd (createEntity id s)) x n = getComponent s x n).
Proof.
  intros Hreach.
  pose proof (reachable_Inv s Hreach) as HI.
  pose proof (reachable_Sep s Hreach) as HS.
  destruct (createEntity_values id s HI) as [Hact Hst].
  assert (staged_value s (counter s) = λ _, None) as Hnone.
  { unfold staged_value.
    destruct (removedEntityComponentMap s !! counter s) eqn:Hr; [|done].
    exfalso. assert (counter s < counter s); [|lia].
    apply (inv_map_below s HI), (sep_removed_map s HS). by eauto. }
  split.
  { unfold hasEntity, same_object. cbn.
    rewrite lookup_insert_eq. apply Nat.eqb_refl. }
  split.
  { unfold getEntityByID. cbn. by rewrite lookup_insert_eq. }
  split.
  { intros n _. split.
    - rewrite hasComponent_active_value, Hact. cbn.
      rewrite lookup_insert_eq. by rewrite decide_True.
    - rewrite getComponent_pick, Hact, Hst. cbn [fst createEntity generateUUID eid].
      rewrite decide_True by done. by rewrite Hnone. }
  split; [done|].
  intros x n Hx. cbn in Hx. split; [|split].
  - unfold hasEntity. cbn. by rewrite lookup_insert_ne.
  - rewrite !hasComponent_active_value, Hact. cbn.
    rewrite lookup_insert_ne by done. by rewrite decide_False.
  - rewrite !getComponent_pick, Hact, Hst. by rewrite decide_False.
Qed.

Lemma X14_witness :
  let s := after prog_removed in
  reachable s
  ∧ hasEntity (snd (createEntity None s)) (fst (createEntity None s)) = true
  ∧ getEntityByID (snd (createEntity None s))
      (eid (fst (createEntity None s)))
    = Some (fst (createEntity None s))
  ∧ (∀ n, own_name n = true →
          hasComponent (snd (createEntity None s))
            (fst (createEntity None s)) n = VUndefined
          ∧ getComponent (snd (createEntity None s))
              (fst (createEntity None s)) n = VNull)
  ∧ entitySets (snd (createEntity None s)) = entitySets s
  ∧ (∀ x n, eid x ≠ eid (fst (createEntity None s)) →
       hasEntity (snd (createEntity None s)) x = hasEntity s x
       ∧ hasComponent (snd (createEntity None s)) x n = hasComponent s x n
       ∧ getComponent (snd (createEntity None s)) x n = getComponent s x n).
Proof.
  intros s.
  assert (reachable s) as H0 by (exists prog_removed; vm_compute; reflexivity).
  split; [exact H0|].
  exact (X14_createEntity_fresh None s H0).
Defined.

(** X12: the entity table changes only through [createEntity],
    [removeEntity] and [removeAllEntities]. Across any call from a reachable
    state an entity in the table afterwards was there before, unless the call
    is the [createEntity] that returned it; and an entity in the table before
    is still there, the same object, unless the call is [removeAllEntities]
    or a [removeEntity] of its id. *)
Theorem X12_entity_table_lifecycle (o : op) (s s' : State) :
  reachable s →
  exec o s = Some s' →
  (∀ k ent, entities s' !! k = Some ent →
     entities s !! k = Some ent
     ∨ ∃ id, o = OpCreateEntity id ∧ ent = fst (createEntity id s)
             ∧ k = counter s)
  ∧ (∀ k ent, entities s !! k = Some ent →
       entities s' !! k = Some ent
       ∨ (entities s' !! k = None
          ∧ (o = OpRemoveAllEntities ∨ ∃ h, o = OpRemoveEntity h ∧ eid h = k))).
Proof.
  intros HI%reachable_Inv.
  destruct o as [b|id|e n v|e n|e|n| |]; cbn [exec].
  - intros [= <-]. split; intros k ent Hk; by left.
  - intros Hs'; apply (inj Some) in Hs'; subst s'. cbn. split; intros k ent.
    + destruct (decide (counter s = k)) as [<-|Hne].
      * rewrite lookup_insert_eq. intros [= <-]. right. by exists id.
      * rewrite lookup_insert_ne by done. by left.
    + intros Hk. left. rewrite lookup_insert_ne; [done|].
      intros <-. assert (counter s < counter s); [|lia].
      apply (inv_below s HI). by eauto.
  - intros (_ & -> & _)%setComponent_frame. split; intros k ent Hk; by left.
  - intros Hs'; apply (inj Some) in Hs'; subst s'.
    destruct (removeComponent_frame e n s) as (_ & -> & _).
    split; intros k ent Hk; by left.
  - intros Hs'; apply (inj Some) in Hs'; subst s'.
    destruct (entities s !! eid e) as [stored|] eqn:He;
      [|rewrite removeEntity_inactive by done;
        split; intros k ent Hk; by left].
    assert (entities (removeEntity e s) = delete (eid e) (entities s)) as ->.
    { unfold removeEntity. rewrite He.
      by destruct (entityComponentMap s !! eid e). }
    split; intros k ent.
    + intros [_ Hk]%lookup_delete_Some. by left.
    + intros Hk. destruct (decide (eid e = k)) as [<-|Hne].
      * right. rewrite lookup_delete_eq. split; [done|]. right. by exists e.
      * left. by rewrite lookup_delete_ne.
  - intros Hs'; apply (inj Some) in Hs'; subst s'.
    destruct (getEntities_frame n s) as (_ & -> & _).
    split; intros k ent Hk; by left.
  - intros [= <-]. split; intros k ent Hk; by left.
  - intros Hs'; apply (inj Some) in Hs'; subst s'.
    unfold removeAllEntities. split; intros k ent.
    + rewrite removeAll_fold_entities by done. case_decide; [done|]. by left.
    + intros Hk. right. rewrite removeAll_fold_entities by done.
      rewrite decide_True; [by split; [|left]|].
      apply elem_of_entity_keys. by eauto.
Qed.

Lemma X12_witness :
  let s := after prog_positioned in
  reachable s
  ∧ exec (OpRemoveEntity e0_stale) s = Some (removeEntity e0_stale s)
  ∧ (∀ k ent, entities (removeEntity e0_stale s) !! k = Some ent →
       entities s !! k = Some ent
       ∨ ∃ id, OpRemoveEntity e0_stale = OpCreateEntity id
               ∧ ent = fst (createEntity id s) ∧ k = counter s)
  ∧ (∀ k ent, entities s !! k = Some ent →
       entities (removeEntity e0_stale s) !! k = Some ent
       ∨ (entities (removeEntity e0_stale s) !! k = None
          ∧ (OpRemoveEntity e0_stale = OpRemoveAllEntities
             ∨ ∃ h, OpRemoveEntity e0_stale = OpRemoveEntity h ∧ eid h = k))).
Proof.
  intros s.
  assert (reachable s) as H0
    by (exists prog_positioned; vm_compute; reflexivity).
  assert (exec (OpRemoveEntity e0_stale) s = Some (removeEntity e0_stale s))
    as H1 by reflexivity.
  split; [exact H0|]. split; [exact H1|].
  exact (X12_entity_table_lifecycle (OpRemoveEntity e0_stale) s _ H0 H1).
Defined.

(** ** Entity sets are never dropped *)

Lemma removeAll_fold_sets keys s n es :
  entitySets s !! n = Some es →
  ∃ new, entitySets (foldl removeAll_step s keys) !! n = Some (new ++ es).
Proof.
  revert s es. induction keys as [|k keys IH]; intros s es Hn.
  - by exists [].
  - cbn [foldl]. unfold removeAll_step at 2.
    destruct (entities s !! k) as [ent|]; [|by apply IH].
    assert (entitySets (removeEntity ent s) !! n = Some es
            ∨ entitySets (removeEntity ent s) !! n = Some (NRemove ent :: es))
      as [Hn'|Hn'].
    { unfold removeEntity. destruct (entities s !! eid ent); [|by left].
      right. cbn. by rewrite lookup_fmap, Hn. }
    + by apply IH.
    + destruct (IH _ _ Hn') as [new Hnew]. exists (new ++ [NRemove ent]).
      by rewrite <- app_assoc.
Qed.

(** X15: no call ever drops or replaces an entity set, or takes a
    notification back: a set registered under a name before a call is still
    registered under it afterwards, with the calls it had received as the
    tail of those it has received now. *)
Theorem X15_entity_sets_only_grow (o : op) (s s' : State) (n : string)
    (es : list note) :
  exec o s = Some s' →
  entitySets s !! n = Some es →
  ∃ new, entitySets s' !! n = Some (new ++ es).
Proof.
  destruct o as [b|id|e m v|e m|e|m| |]; cbn [exec].
  - intros [= <-] Hn. by exists [].
  - intros [= <-] Hn. by exists [].
  - unfold setComponent, update_set. intros Hs' Hn.
    destruct (entities s !! eid e); [|simplify_eq; by exists []].
    cbn in Hs'. destruct (decide (m = n)) as [->|Hne].
    + rewrite Hn in Hs'.
      destruct (entityComponentMap s !! eid e) as [l|]; [|done].
      destruct (truthy _); simplify_eq; cbn; rewrite lookup_insert_eq.
      * by exists [NChange e].
      * by exists [NAdd e].
    + exists []. destruct (entityComponentMap s !! eid e) as [l|];
        destruct (entitySets s !! m); destruct (isLazySets s);
        simplify_eq; cbn; rewrite ?lookup_insert_ne by done; done.
  - intros Hs' Hn; apply (inj Some) in Hs'; subst s'.
    destruct (entityComponentMap s !! eid e) as [l|] eqn:Hl;
      [|rewrite removeComponent_no_map by done; by exists []].
    rewrite (removeComponent_sets e m s l Hl).
    destruct (decide (m = n)) as [->|Hne].
    + rewrite Hn, lookup_insert_eq. by exists [NRemove e].
    + exists []. destruct (entitySets s !! m); [|done].
      by rewrite lookup_insert_ne.
  - intros Hs' Hn; apply (inj Some) in Hs'; subst s'.
    unfold removeEntity. destruct (entities s !! eid e); [|by exists []].
    cbn. rewrite lookup_fmap, Hn. by exists [NRemove e].
  - intros Hs' Hn; apply (inj Some) in Hs'; subst s'. exists [].
    unfold getEntities. destruct (entitySets s !! m) eqn:Hm; [done|].
    cbn. rewrite lookup_insert_ne; [done|]. intros ->. congruence.
  - intros [= <-] Hn. exists [NFlush]. cbn. by rewrite lookup_fmap, Hn.
  - intros Hs' Hn; apply (inj Some) in Hs'; subst s'.
    by apply removeAll_fold_sets.
Qed.

Lemma X15_witness :
  let s := after prog_positioned in
  exec OpRemoveAllEntities s = Some (removeAllEntities s)
  ∧ entitySets s !! "Position" = Some [NAdd e0]
  ∧ ∃ new, entitySets (removeAllEntities s) !! "Position"
           = Some (new ++ [NAdd e0]).
Proof.
  intros s.
  assert (exec OpRemoveAllEntities s = Some (removeAllEntities s)) as H0
    by reflexivity.
  assert (entitySets s !! "Position" = Some [NAdd e0]) as H1
    by (vm_compute; reflexivity).
  split; [exact H0|]. split; [exact H1|].
  exact (X15_entity_sets_only_grow OpRemoveAllEntities s _ "Position"
           [NAdd e0] H0 H1).
Defined.

(** ** Entity sets against the registry: what each operation keeps *)

Lemma run_invariant (P : State → Prop) (allowed : op → bool) :
  (∀ o s s', allowed o = true → P s → exec o s = Some s' → P s') →
  ∀ ops s s', forallb allowed ops = true → P s → run ops s = Some s' → P s'.
Proof.
  intros Hstep ops. induction ops as [|o ops IH]; intros s s' Hok HP; cbn.
  - by intros [= <-].
  - cbn in Hok. apply andb_true_iff in Hok as [Ho Hops].
    destruct (exec o s) as [s1|] eqn:Hexec; [|done].
    apply IH; [done|]. by apply (Hstep o s).
Qed.

Lemma setComponent_sets e n v s s' l :
  is_Some (entities s !! eid e) →
  entityComponentMap s !! eid e = Some l →
  setComponent e n v s = Some s' →
  let notice := if truthy (get_prop (obj_at (heap s) l) n)
                then NChange e else NAdd e in
  entitySets s'
  = match entitySets s !! n with
    | Some es => <[n := notice :: es]> (entitySets s)
    | None => if isLazySets s then entitySets s
              else <[n := [notice]]> (entitySets s)
    end.
Proof.
  intros [stored He] Hl. unfold setComponent, update_set.
  rewrite He, Hl. cbn.
  destruct (entitySets s !! n).
  - intros [= <-]. cbn. by destruct (truthy _).
  - destruct (isLazySets s); intros [= <-]; cbn; [done|].
    by destruct (truthy _); rewrite insert_insert_eq.
Qed.

Lemma contains_notice id e (b : bool) es :
  EntitySet.contains id ((if b then NChange e else NAdd e) :: es)
  = if b then EntitySet.contains id es
    else if Nat.eqb (eid e) id then true else EntitySet.contains id es.
Proof. by destruct b. Qed.

Lemma truthy_get_prop_Some (o : props) n :
  truthy (get_prop o n) = true → ∃ v, o !! n = Some v ∧ truthy v = true.
Proof.
  unfold get_prop. destruct (o !! n) as [v|]; [|done]. by exists v.
Qed.

Section sound.
Variable s : State.
Hypothesis HI : Inv s.
Hypothesis HS : Sep s.
Hypothesis Hsound : sets_sound s.

Lemma sound_createEntity id : sets_sound (snd (createEntity id s)).
Proof.
  destruct (createEntity_values id s HI) as [Hact _].
  intros n es k Hn Hc. destruct (Hsound n es k Hn Hc) as [Hk Hv].
  assert (k ≠ counter s) as Hne.
  { intros ->. apply (inv_below s HI) in Hk. lia. }
  rewrite Hact, decide_False by done. split; [|done].
  cbn. by rewrite lookup_insert_ne.
Qed.

Lemma sound_setComponent e n v s' :
  setComponent e n v s = Some s' → sets_sound s'.
Proof.
  intros Hs'.
  destruct (entities s !! eid e) as [stored|] eqn:He;
    [|rewrite setComponent_inactive in Hs' by done; by simplify_eq].
  destruct (inv_map s HI (eid e)) as [l Hl]; [by eauto|].
  destruct (setComponent_values e n v s s' HI HS) as [Hact _];
    [by eauto|done|].
  destruct (setComponent_frame e n v s s' Hs') as (_ & Hents & _).
  pose proof (setComponent_sets e n v s s' l (mk_is_Some _ _ He) Hl Hs')
    as Hsets. cbn zeta in Hsets.
  assert (∀ m k, is_Some (active_value s k m) →
                 is_Some (active_value s' k m)) as Hmono.
  { intros m k. rewrite Hact. by case_decide. }
  intros m es k Hm Hc. rewrite Hents.
  assert (k = eid e ∧ m = n
          ∨ ∃ es0, entitySets s !! m = Some es0
                   ∧ EntitySet.contains k es0 = true) as [[-> ->]|Hold].
  { rewrite Hsets in Hm. destruct (entitySets s !! n) as [es0|] eqn:Hn.
    - destruct (decide (n = m)) as [<-|Hne].
      + rewrite lookup_insert_eq in Hm. simplify_eq.
        rewrite contains_notice in Hc.
        destruct (truthy _); [right; by exists es0|].
        destruct (Nat.eqb_spec (eid e) k) as [Heq|Hneq]; [by left|].
        right. by exists es0.
      + rewrite lookup_insert_ne in Hm by done. right. by exists es.
    - destruct (isLazySets s); [right; by exists es|].
      destruct (decide (n = m)) as [<-|Hne].
      + rewrite lookup_insert_eq in Hm. simplify_eq.
        rewrite contains_notice in Hc.
        destruct (truthy _); [done|].
        destruct (Nat.eqb_spec (eid e) k) as [Heq|Hneq]; [by left|done].
      + rewrite lookup_insert_ne in Hm by done. right. by exists es. }
  - split; [by eauto|]. rewrite Hact, decide_True by done. by eauto.
  - destruct Hold as (es0 & Hm0 & Hc0).
    destruct (Hsound m es0 k Hm0 Hc0) as [Hk Hv]. split; [done|].
    by apply Hmono.
Qed.

Lemma sound_removeComponent e n : sets_sound (removeComponent e n s).
Proof.
  destruct (entityComponentMap s !! eid e) as [l|] eqn:Hl;
    [|by rewrite removeComponent_no_map].
  destruct (removeComponent_values e n s l HI HS Hl) as (Hact & _ & _).
  destruct (removeComponent_frame e n s) as (_ & Hents & _).
  intros m es k Hm Hc. rewrite Hents, Hact.
  rewrite (removeComponent_sets e n s l Hl) in Hm.
  destruct (decide (n = m)) as [<-|Hne].
  - destruct (entitySets s !! n) as [es0|] eqn:Hn.
    + rewrite lookup_insert_eq in Hm. simplify_eq. cbn in Hc.
      destruct (Nat.eqb_spec (eid e) k) as [|Hk]; [done|].
      rewrite decide_False by (intros [? _]; by subst).
      by apply (Hsound n es0).
    + congruence.
  - rewrite decide_False by (intros [_ ?]; by subst).
    apply (Hsound m es); [|done].
    destruct (entitySets s !! n); [|done].
    by rewrite lookup_insert_ne in Hm.
Qed.

Lemma sound_removeEntity e : sets_sound (removeEntity e s).
Proof.
  destruct (entities s !! eid e) as [stored|] eqn:He;
    [|by rewrite removeEntity_inactive].
  destruct (removeEntity_values e s HI) as [Hact _]; [by eauto|].
  assert (entities (removeEntity e s) = delete (eid e) (entities s)) as Hents.
  { unfold removeEntity. rewrite He. by destruct (entityComponentMap s !! eid e). }
  assert (entitySets (removeEntity e s) = EntitySet.remove e <$> entitySets s)
    as Hsets.
  { unfold removeEntity. rewrite He. by destruct (entityComponentMap s !! eid e). }
  intros m es k Hm Hc. rewrite Hents, Hact.
  rewrite Hsets, lookup_fmap in Hm.
  destruct (entitySets s !! m) as [es0|] eqn:Hm0; [|done].
  cbn in Hm. simplify_eq. cbn in Hc.
  destruct (Nat.eqb_spec (eid e) k) as [|Hk]; [done|].
  rewrite lookup_delete_ne by done. by apply (Hsound m es0).
Qed.

Lemma sound_getEntities n : sets_sound (snd (getEntities n s)).
Proof.
  destruct (entitySets s !! n) as [es0|] eqn:Hn.
  { unfold getEntities. by rewrite Hn. }
  intros m es k Hm Hc.
  destruct (getEntities_frame n s) as (_ & Hents & _).
  destruct (getEntities_values n s k m) as [Hact _].
  rewrite Hents, Hact.
  unfold getEntities in Hm. rewrite Hn in Hm. cbn in Hm.
  destruct (decide (n = m)) as [<-|Hne].
  - rewrite lookup_insert_eq in Hm. simplify_eq.
    rewrite backfill_filter, app_nil_r in Hc.
    apply contains_reverse_adds in Hc
      as (ent & [Ht Hin]%list_elem_of_filter & Hid).
    apply list_elem_of_omap in Hin as (k' & _ & Hk').
    pose proof (inv_id s HI _ _ Hk') as Hk. simplify_eq.
    split; [by eauto|].
    rewrite hasComponent_active_value in Ht.
    destruct (entityComponentMap s !! eid ent); [|done].
    by destruct (active_value s (eid ent) n).
  - rewrite lookup_insert_ne in Hm by done. by apply (Hsound m es).
Qed.

Lemma sound_flushChanges : sets_sound (flushChanges s).
Proof.
  intros m es k Hm Hc. cbn in Hm. rewrite lookup_fmap in Hm.
  destruct (entitySets s !! m) as [es0|] eqn:Hm0; [|done].
  cbn in Hm. simplify_eq. by apply (Hsound m es0).
Qed.

End sound.

Lemma sound_removeAll_fold keys s :
  Inv s → Sep s → sets_sound s → sets_sound (foldl removeAll_step s keys).
Proof.
  revert s. induction keys as [|k keys IH]; intros s HI HS Hsound; [done|].
  cbn [foldl]. unfold removeAll_step at 2.
  destruct (entities s !! k); [|by apply IH].
  apply IH; [by apply Inv_removeEntity|by apply Sep_removeEntity|].
  by apply sound_removeEntity.
Qed.

Lemma sound_exec o s s' :
  Inv s → Sep s → sets_sound s → exec o s = Some s' → sets_sound s'.
Proof.
  intros HI HS Hsound.
  destruct o as [b|id|e n v|e n|e|n| |]; cbn [exec];
    [| |by apply sound_setComponent| | | | |];
    intros Hs'; apply (inj Some) in Hs'; subst s'.
  - done.
  - by apply sound_createEntity.
  - by apply sound_removeComponent.
  - by apply sound_removeEntity.
  - by apply sound_getEntities.
  - by apply sound_flushChanges.
  - by apply sound_removeAll_fold.
Qed.

(** X10: in every reachable state an entity set contains only ids of active
    entities, and only those that have the set's name in their active
    component list. In particular no set contains a removed entity. *)
Theorem X10_sets_contain_only_active (s : State) (n : string)
    (es : list note) (id : nat) :
  reachable s →
  entitySets s !! n = Some es →
  EntitySet.contains id es = true →
  ∃ ent l, entities s !! id = Some ent
           ∧ entityComponentMap s !! id = Some l
           ∧ is_Some (obj_at (heap s) l !! n).
Proof.
  intros [ops Hrun] Hn Hc.
  assert (Inv s ∧ Sep s ∧ sets_sound s) as (HI & HS & Hsound).
  { apply (run_invariant (λ s, Inv s ∧ Sep s ∧ sets_sound s) (λ _, true))
      with ops EntitySystem.
    - intros o s0 s1 _ (HI & HS & Hsound) Ho.
      split; [by eapply Inv_exec|]. split; [by eapply Sep_exec|].
      by eapply sound_exec.
    - apply forallb_forall. by intros.
    - split; [apply Inv_EntitySystem|]. split; [apply Sep_EntitySystem|].
      intros m es0 k Hm. cbn in Hm. by rewrite lookup_empty in Hm.
    - done. }
  destruct (Hsound n es id Hn Hc) as [[ent Hent] Hv].
  unfold active_value in Hv.
  destruct (entityComponentMap s !! id) as [l|]; [|by destruct Hv].
  by exists ent, l.
Qed.

Lemma X10_witness :
  let s := after prog_positioned in
  reachable s
  ∧ entitySets s !! "Position" = Some [NAdd e0]
  ∧ EntitySet.contains 0 [NAdd e0] = true
  ∧ ∃ ent l, entities s !! 0 = Some ent
             ∧ entityComponentMap s !! 0 = Some l
             ∧ is_Some (obj_at (heap s) l !! "Position").
Proof.
  intros s.
  assert (reachable s) as H0
    by (exists prog_positioned; vm_compute; reflexivity).
  assert (entitySets s !! "Position" = Some [NAdd e0]) as H1
    by (vm_compute; reflexivity).
  assert (EntitySet.contains 0 [NAdd e0] = true) as H2 by reflexivity.
  split; [exact H0|]. split; [exact H1|]. split; [exact H2|].
  exact (X10_sets_contain_only_active s "Position" [NAdd e0] 0 H0 H1 H2).
Defined.

(** ** Entity sets are complete while the mode is not switched *)

Lemma active_value_list s k n l :
  entityComponentMap s !! k = Some l →
  active_value s k n = obj_at (heap s) l !! n.
Proof. intros Hl. unfold active_value. by rewrite Hl. Qed.

Section complete.
Variable s : State.
Hypothesis HI : Inv s.
Hypothesis HS : Sep s.
Hypothesis Hcomplete : sets_complete s.
Hypothesis Hcover : eager_cover s.

Lemma complete_createEntity id :
  sets_complete (snd (createEntity id s))
  ∧ eager_cover (snd (createEntity id s)).
Proof.
  destruct (createEntity_values id s HI) as [Hact _]. split.
  - intros n es k v Hn Hk Hv Ht. rewrite Hact in Hv.
    destruct (decide (k = counter s)) as [->|Hne]; [done|].
    apply (Hcomplete n es k v); try done.
    cbn in Hk. by rewrite lookup_insert_ne in Hk.
  - intros Hlazy n k Hn. rewrite Hact. case_decide; [done|].
    by apply Hcover.
Qed.

Lemma complete_setComponent e n v s' :
  setComponent e n v s = Some s' → sets_complete s' ∧ eager_cover s'.
Proof.
  intros Hs'.
  destruct (entities s !! eid e) as [stored|] eqn:He;
    [|rewrite setComponent_inactive in Hs' by done; by simplify_eq].
  destruct (inv_map s HI (eid e)) as [l Hl]; [by eauto|].
  destruct (setComponent_values e n v s s' HI HS) as [Hact _];
    [by eauto|done|].
  destruct (setComponent_frame e n v s s' Hs') as (_ & Hents & _ & _ & Hlazy & _).
  pose proof (setComponent_sets e n v s s' l (mk_is_Some _ _ He) Hl Hs')
    as Hsets. cbn zeta in Hsets.
  assert (∀ m, m ≠ n → entitySets s' !! m = entitySets s !! m) as Hother.
  { intros m Hm. rewrite Hsets. destruct (entitySets s !! n).
    - by rewrite lookup_insert_ne.
    - destruct (isLazySets s); [done|]. by rewrite lookup_insert_ne. }
  assert (truthy (get_prop (obj_at (heap s) l) n) = true →
          ∃ v0, active_value s (eid e) n = Some v0 ∧ truthy v0 = true)
    as Hold.
  { intros (v0 & Hv0 & Ht0)%truthy_get_prop_Some. exists v0.
    by rewrite (active_value_list s (eid e) n l). }
  split.
  - intros m es k v' Hm Hk Hv Ht. rewrite Hents in Hk. rewrite Hact in Hv.
    destruct (decide (m = n)) as [->|Hmn];
      [|rewrite decide_False in Hv by (by intros [_ ?]);
        rewrite Hother in Hm by done; by apply (Hcomplete m es k v')].
    rewrite Hsets in Hm.
    destruct (entitySets s !! n) as [es0|] eqn:Hn.
    + rewrite lookup_insert_eq in Hm. simplify_eq.
      rewrite contains_notice.
      destruct (truthy (get_prop (obj_at (heap s) l) n)) eqn:Hb.
      * destruct (decide (k = eid e)) as [->|Hke].
        -- destruct Hold as (v0 & Hv0 & Ht0); [done|].
           by apply (Hcomplete n es0 (eid e) v0).
        -- rewrite decide_False in Hv by (by intros [? _]).
           by apply (Hcomplete n es0 k v').
      * destruct (Nat.eqb_spec (eid e) k) as [Heq|Hke]; [done|].
        rewrite decide_False in Hv by (intros [? _]; by subst).
        by apply (Hcomplete n es0 k v').
    + destruct (isLazySets s) eqn:Hmode; [congruence|].
      rewrite lookup_insert_eq in Hm. simplify_eq.
      rewrite contains_notice.
      destruct (truthy (get_prop (obj_at (heap s) l) n)) eqn:Hb.
      * destruct Hold as (v0 & Hv0 & Ht0); [done|].
        rewrite (Hcover Hmode n (eid e) Hn) in Hv0. done.
      * destruct (Nat.eqb_spec (eid e) k) as [Heq|Hke]; [done|].
        rewrite decide_False in Hv by (intros [? _]; by subst).
        rewrite (Hcover Hmode n k Hn) in Hv. done.
  - intros Hmode m k Hm. rewrite Hlazy in Hmode.
    assert (m ≠ n) as Hmn.
    { intros ->. rewrite Hsets in Hm.
      destruct (entitySets s !! n); [by rewrite lookup_insert_eq in Hm|].
      rewrite Hmode in Hm. by rewrite lookup_insert_eq in Hm. }
    rewrite Hact, decide_False by (by intros [_ ?]).
    apply Hcover; [done|]. by rewrite <- Hother.
Qed.

Lemma complete_removeComponent e n :
  sets_complete (removeComponent e n s) ∧ eager_cover (removeComponent e n s).
Proof.
  destruct (entityComponentMap s !! eid e) as [l|] eqn:Hl;
    [|by rewrite removeComponent_no_map].
  destruct (removeComponent_values e n s l HI HS Hl) as (Hact & _ & _).
  destruct (removeComponent_frame e n s) as (_ & Hents & _ & Hlazy).
  pose proof (removeComponent_sets e n s l Hl) as Hsets.
  split.
  - intros m es k v' Hm Hk Hv Ht. rewrite Hents in Hk. rewrite Hact in Hv.
    case_decide as Hd; [done|]. rewrite Hsets in Hm.
    destruct (entitySets s !! n) as [es0|] eqn:Hn;
      [|by apply (Hcomplete m es k v')].
    destruct (decide (n = m)) as [<-|Hmn].
    + rewrite lookup_insert_eq in Hm. simplify_eq. cbn.
      destruct (Nat.eqb_spec (eid e) k) as [Heq|Hke];
        [exfalso; apply Hd; by subst|].
      by apply (Hcomplete n es0 k v').
    + rewrite lookup_insert_ne in Hm by done.
      by apply (Hcomplete m es k v').
  - intros Hmode m k Hm. rewrite Hlazy in Hmode. rewrite Hact.
    case_decide; [done|]. apply Hcover; [done|].
    rewrite Hsets in Hm. destruct (entitySets s !! n) eqn:Hn; [|done].
    destruct (decide (n = m)) as [<-|Hmn].
    + by rewrite lookup_insert_eq in Hm.
    + by rewrite lookup_insert_ne in Hm.
Qed.

Lemma complete_removeEntity e :
  sets_complete (removeEntity e s) ∧ eager_cover (removeEntity e s).
Proof.
  destruct (entities s !! eid e) as [stored|] eqn:He;
    [|by rewrite removeEntity_inactive].
  destruct (removeEntity_values e s HI) as [Hact _]; [by eauto|].
  destruct (removeEntity_frame e s) as (_ & _ & _ & Hlazy).
  assert (entities (removeEntity e s) = delete (eid e) (entities s)) as Hents.
  { unfold removeEntity. rewrite He. by destruct (entityComponentMap s !! eid e). }
  assert (entitySets (removeEntity e s) = EntitySet.remove e <$> entitySets s)
    as Hsets.
  { unfold removeEntity. rewrite He. by destruct (entityComponentMap s !! eid e). }
  split.
  - intros m es k v' Hm Hk Hv Ht. rewrite Hact in Hv.
    rewrite Hents in Hk. rewrite Hsets, lookup_fmap in Hm.
    destruct (entitySets s !! m) as [es0|] eqn:Hm0; [|done].
    cbn in Hm. simplify_eq. cbn.
    destruct Hk as [ent [Hke Hk]%lookup_delete_Some].
    destruct (Nat.eqb_spec (eid e) k) as [Heq|_]; [done|].
    apply (Hcomplete m es0 k v'); by eauto.
  - intros Hmode m k Hm. rewrite Hlazy in Hmode. rewrite Hact.
    apply Hcover; [done|]. rewrite Hsets, lookup_fmap in Hm.
    by destruct (entitySets s !! m).
Qed.

Lemma complete_getEntities n :
  sets_complete (snd (getEntities n s)) ∧ eager_cover (snd (getEntities n s)).
Proof.
  destruct (entitySets s !! n) as [es0|] eqn:Hn.
  { unfold getEntities. by rewrite Hn. }
  destruct (getEntities_frame n s) as (_ & Hents & _).
  assert (isLazySets (snd (getEntities n s)) = isLazySets s) as Hlazy.
  { unfold getEntities. by rewrite Hn. }
  assert (entitySets (snd (getEntities n s))
          = <[n := fst (getEntities n s)]> (entitySets s)) as Hsets.
  { unfold getEntities. by rewrite Hn. }
  split.
  - intros m es k v' Hm Hk Hv Ht.
    destruct (getEntities_values n s k m) as [Hact _].
    rewrite Hents in Hk. rewrite Hact in Hv. rewrite Hsets in Hm.
    destruct (decide (n = m)) as [<-|Hmn];
      [|rewrite lookup_insert_ne in Hm by done;
        by apply (Hcomplete m es k v')].
    rewrite lookup_insert_eq in Hm. simplify_eq.
    unfold getEntities. rewrite Hn. cbn [fst].
    rewrite backfill_filter, app_nil_r.
    apply contains_reverse_adds. destruct Hk as [ent Hk].
    pose proof (inv_id s HI _ _ Hk) as Hid. exists ent. split; [|done].
    apply list_elem_of_filter. split.
    + rewrite hasComponent_active_value, Hid.
      unfold active_value in Hv |- *.
      destruct (entityComponentMap s !! k); [|done]. by rewrite Hv.
    + apply list_elem_of_omap. exists k. split; [|done].
      apply elem_of_entity_keys. by eauto.
  - intros Hmode m k Hm. rewrite Hlazy in Hmode.
    destruct (getEntities_values n s k m) as [-> _].
    apply Hcover; [done|]. rewrite Hsets in Hm.
    destruct (decide (n = m)) as [<-|Hmn].
    + by rewrite lookup_insert_eq in Hm.
    + by rewrite lookup_insert_ne in Hm.
Qed.

Lemma complete_flushChanges :
  sets_complete (flushChanges s) ∧ eager_cover (flushChanges s).
Proof.
  split.
  - intros m es k v' Hm Hk Hv Ht. cbn in Hm. rewrite lookup_fmap in Hm.
    destruct (entitySets s !! m) as [es0|] eqn:Hm0; [|done].
    cbn in Hm. simplify_eq. by apply (Hcomplete m es0 k v').
  - intros Hmode m k Hm. cbn in Hm. rewrite lookup_fmap in Hm.
    apply (Hcover Hmode m k). by destruct (entitySets s !! m).
Qed.

End complete.

Lemma complete_removeAll_fold keys s :
  Inv s → Sep s → sets_complete s → eager_cover s →
  sets_complete (foldl removeAll_step s keys)
  ∧ eager_cover (foldl removeAll_step s keys).
Proof.
  revert s. induction keys as [|k keys IH]; intros s HI HS Hc Hcov; [done|].
  cbn [foldl]. unfold removeAll_step at 2 4.
  destruct (entities s !! k) as [ent|]; [|by apply IH].
  destruct (complete_removeEntity s HI Hc Hcov ent) as [Hc' Hcov'].
  apply IH; [by apply Inv_removeEntity|by apply Sep_removeEntity|done|done].
Qed.

Lemma settled_exec b o s s' :
  keeps_mode o = true → settled b s → exec o s = Some s' → settled b s'.
Proof.
  intros Hkeep (HI & HS & Hc & Hcov & Hmode) Hexec.
  split; [by eapply Inv_exec|]. split; [by eapply Sep_exec|].
  cut ((sets_complete s' ∧ eager_cover s') ∧ isLazySets s' = b);
    [by intros [[? ?] ?]|].
  split.
  - destruct o as [?|id|e n v|e n|e|n| |]; cbn [exec] in Hexec;
      [done| |by eapply complete_setComponent| | | | |];
      apply (inj Some) in Hexec; subst s'.
    + by apply complete_createEntity.
    + by apply complete_removeComponent.
    + by apply complete_removeEntity.
    + by apply complete_getEntities.
    + by apply complete_flushChanges.
    + by apply complete_removeAll_fold.
  - rewrite <- Hmode.
    destruct o as [?|id|e n v|e n|e|n| |]; cbn [exec] in Hexec;
      [done| |by apply setComponent_frame in Hexec as (_ & _ & _ & _ & ? & _)
       | | | | |];
      apply (inj Some) in Hexec; subst s'.
    + done.
    + apply removeComponent_frame.
    + apply removeEntity_frame.
    + unfold getEntities. by destruct (entitySets s !! n).
    + done.
    + apply removeAllEntities_frame.
Qed.

Lemma settled_start b : settled b (set_isLazySets b EntitySystem).
Proof.
  split; [apply Inv_set_isLazySets, Inv_EntitySystem|].
  split; [by apply (Sep_same_registries EntitySystem), Sep_EntitySystem|].
  split; [|split; [|done]].
  - intros n es k v Hn. cbn in Hn. by rewrite lookup_empty in Hn.
  - intros _ n k _. unfold active_value. cbn. by rewrite lookup_empty.
Qed.

Lemma reachable_in_mode_settled b s : reachable_in_mode b s → settled b s.
Proof.
  intros (ops & Hkeep & Hrun).
  apply (run_invariant (settled b) keeps_mode)
    with ops (set_isLazySets b EntitySystem); try done.
  - intros o s0 s1. apply settled_exec.
  - apply settled_start.
Qed.

(** X11: as long as [isLazySets] is set once, before the first call, and
    left alone, an entity set that exists is complete: it contains every
    active entity whose active component list holds a truthy value under the
    set's name. In eager mode, moreover, a name that has no set is in no
    component list at all. *)
Theorem X11_sets_complete_in_one_mode (b : bool) (s : State) :
  reachable_in_mode b s →
  (∀ n es id ent l v,
     entitySets s !! n = Some es →
     entities s !! id = Some ent →
     entityComponentMap s !! id = Some l →
     obj_at (heap s) l !! n = Some v →
     truthy v = true →
     EntitySet.contains id es = true)
  ∧ (b = false →
     ∀ n id l, entitySets s !! n = None →
       entityComponentMap s !! id = Some l →
       obj_at (heap s) l !! n = None).
Proof.
  intros (HI & HS & Hc & Hcov & Hmode)%reachable_in_mode_settled. split.
  - intros n es id ent l v Hn Hent Hl Hv Ht.
    apply (Hc n es id v); [done|by eauto| |done].
    by rewrite (active_value_list s id n l).
  - intros -> n id l Hn Hl.
    rewrite <- (active_value_list s id n l) by done. by apply Hcov.
Qed.

Lemma X11_witness :
  let s := after prog_positioned in
  reachable_in_mode false s
  ∧ (∀ n es id ent l v,
       entitySets s !! n = Some es →
       entities s !! id = Some ent →
       entityComponentMap s !! id = Some l →
       obj_at (heap s) l !! n = Some v →
       truthy v = true →
       EntitySet.contains id es = true)
  ∧ (false = false →
     ∀ n id l, entitySets s !! n = None →
       entityComponentMap s !! id = Some l →
       obj_at (heap s) l !! n = None).
Proof.
  intros s.
  assert (reachable_in_mode false s) as H0
    by (exists prog_positioned; split; vm_compute; reflexivity).
  split; [exact H0|].
  exact (X11_sets_complete_in_one_mode false s H0).
Defined.

(** X16: as long as the mode is not switched, a component set on an active
    entity under a name outside [Object.prototype] is found by the next
    query: after [setComponent(e, n, v)] with a truthy [v], the set
    [getEntities(n)] returns contains [e]. In eager mode
    the set of [n] exists right after the call and contains [e] whatever the
    value is. *)
Theorem X16_setComponent_then_getEntities (b : bool) (s : State)
    (e : Entity) (n : string) (v : value) :
  reachable_in_mode b s →
  own_name n = true →
  is_Some (entities s !! eid e) →
  ∃ s', setComponent e n v s = Some s'
        ∧ (truthy v = true →
           EntitySet.contains (eid e) (fst (getEntities n s')) = true)
        ∧ (b = false →
           ∃ es, entitySets s' !! n = Some es
                 ∧ EntitySet.contains (eid e) es = true).
Proof.
  intros Hset%reachable_in_mode_settled _ He.
  pose proof Hset as (HI & HS & Hc & Hcov & Hmode).
  destruct (setComponent_no_throw e n v s HI) as [s' Hs']. exists s'.
  split; [done|].
  assert (settled b s') as Hset'
    by by apply (settled_exec b (OpSetComponent e n v) s).
  destruct (setComponent_values e n v s s' HI HS He Hs') as [Hact _].
  destruct (setComponent_frame e n v s s' Hs') as (_ & Hents & _).
  destruct (inv_map s HI _ He) as [l Hl].
  pose proof (setComponent_sets e n v s s' l He Hl Hs') as Hsets.
  cbn zeta in Hsets.
  split.
  - intros Ht.
    assert (settled b (snd (getEntities n s'))) as (_ & _ & Hc2 & _)
      by by apply (settled_exec b (OpGetEntities n) s').
    destruct (getEntities_frame n s') as (_ & Hents2 & _).
    destruct (getEntities_values n s' (eid e) n) as [Hact2 _].
    apply (Hc2 n _ (eid e) v); [|by rewrite Hents2, Hents| |done].
    + unfold getEntities. destruct (entitySets s' !! n) eqn:Hn; [done|].
      cbn. by rewrite lookup_insert_eq.
    + rewrite Hact2, Hact. by rewrite decide_True.
  - intros ->. rewrite Hsets, Hmode.
    destruct (entitySets s !! n) as [es0|] eqn:Hn.
    + eexists. split; [by rewrite lookup_insert_eq|].
      rewrite contains_notice.
      destruct (truthy (get_prop (obj_at (heap s) l) n)) eqn:Hb;
        [|by rewrite Nat.eqb_refl].
      apply truthy_get_prop_Some in Hb as (v0 & Hv0 & Ht0).
      apply (Hc n es0 (eid e) v0); try done.
      by rewrite (active_value_list s (eid e) n l).
    + eexists. split; [by rewrite lookup_insert_eq|].
      rewrite contains_notice.
      destruct (truthy (get_prop (obj_at (heap s) l) n)) eqn:Hb;
        [|by rewrite Nat.eqb_refl].
      apply truthy_get_prop_Some in Hb as (v0 & Hv0 & Ht0).
      rewrite <- (active_value_list s (eid e) n l) in Hv0 by done.
      rewrite (Hcov Hmode n (eid e) Hn) in Hv0. done.
Qed.

Lemma X16_witness :
  let s := after prog_positioned in
  reachable_in_mode false s
  ∧ own_name "Velocity" = true
  ∧ is_Some (entities s !! eid e0)
  ∧ ∃ s', setComponent e0 "Velocity" velocity s = Some s'
        ∧ (truthy velocity = true →
           EntitySet.contains (eid e0) (fst (getEntities "Velocity" s')) = true)
        ∧ (false = false →
           ∃ es, entitySets s' !! "Velocity" = Some es
                 ∧ EntitySet.contains (eid e0) es = true).
Proof.
  intros s.
  assert (reachable_in_mode false s) as H0
    by (exists prog_positioned; split; vm_compute; reflexivity).
  assert (own_name "Velocity" = true) as Hown by reflexivity.
  assert (is_Some (entities s !! eid e0)) as H1
    by (eexists; vm_compute; reflexivity).
  split; [exact H0|]. split; [exact Hown|]. split; [exact H1|].
  exact (X16_setComponent_then_getEntities false s e0 "Velocity" velocity
           H0 Hown H1).
Defined.

(** ** Edge cases *)

(** X20: [removeComponent(e, n)] does not look whether the entity has the
    component. Whenever the id of [e] has a component list, in a reachable
    state and for a name [n] outside [Object.prototype], the call sends exactly one [remove] to the set of [n] if that set
    exists, also for a component the entity never had; afterwards
    [hasComponent(e, n)] is [undefined] and the set does not contain [e]. *)
Theorem X20_removeComponent_always_notifies (s : State) (e : Entity)
    (n : string) (l : nat) :
  reachable s →
  own_name n = true →
  entityComponentMap s !! eid e = Some l →
  hasComponent (removeComponent e n s) e n = VUndefined
  ∧ (∀ es, entitySets s !! n = Some es →
       entitySets (removeComponent e n s) !! n = Some (NRemove e :: es)
       ∧ EntitySet.contains (eid e) (NRemove e :: es) = false)
  ∧ (entitySets s !! n = None →
     entitySets (removeComponent e n s) = entitySets s).
Proof.
  intros HI%reachable_Inv _ Hl.
  destruct (removeComponent_frame e n s) as (_ & _ & Ha & _).
  split.
  { unfold hasComponent, get_prop.
    by rewrite Ha, Hl, (removeComponent_active_list e n s l). }
  rewrite (removeComponent_sets e n s l Hl). split.
  - intros es ->. rewrite lookup_insert_eq. split; [done|].
    cbn. by rewrite Nat.eqb_refl.
  - by intros ->.
Qed.

Lemma X20_witness :
  let s := snd (getEntities "Velocity" (after prog_positioned)) in
  reachable s
  ∧ own_name "Velocity" = true
  ∧ entityComponentMap s !! eid e0 = Some 0
  ∧ hasComponent s e0 "Velocity" = VUndefined
  ∧ hasComponent (removeComponent e0 "Velocity" s) e0 "Velocity" = VUndefined
  ∧ (∀ es, entitySets s !! "Velocity" = Some es →
       entitySets (removeComponent e0 "Velocity" s) !! "Velocity"
       = Some (NRemove e0 :: es)
       ∧ EntitySet.contains (eid e0) (NRemove e0 :: es) = false)
  ∧ (entitySets s !! "Velocity" = None →
     entitySets (removeComponent e0 "Velocity" s) = entitySets s).
Proof.
  intros s.
  assert (reachable s) as H0
    by (exists (prog_positioned ++ [OpGetEntities "Velocity"]);
        vm_compute; reflexivity).
  assert (own_name "Velocity" = true) as Hown by reflexivity.
  assert (entityComponentMap s !! eid e0 = Some 0) as H1
    by (vm_compute; reflexivity).
  split; [exact H0|]. split; [exact Hown|]. split; [exact H1|].
  split; [vm_compute; reflexivity|].
  exact (X20_removeComponent_always_notifies s e0 "Velocity" 0 H0 Hown H1).
Defined.

(** X21: a handle whose id the system has not handed out yet is unknown to
    every operation of a reachable state: [hasEntity] is false,
    [getEntityByID] finds nothing, [hasComponent] answers [false],
    [getComponent] answers [null], and [setComponent], [removeComponent] and
    [removeEntity] leave the state exactly as it is. *)
Theorem X21_unknown_entity (s : State) (e : Entity) (n : string)
    (v : value) :
  reachable s →
  counter s ≤ eid e →
  hasEntity s e = false
  ∧ getEntityByID s (eid e) = None
  ∧ hasComponent s e n = VBool false
  ∧ getComponent s e n = VNull
  ∧ setComponent e n v s = Some s
  ∧ removeComponent e n s = s
  ∧ removeEntity e s = s.
Proof.
  intros Hreach Hid.
  pose proof (reachable_Inv s Hreach) as HI.
  pose proof (reachable_Sep s Hreach) as HS.
  assert (entities s !! eid e = None) as Hent.
  { destruct (entities s !! eid e) eqn:Hk; [|done].
    assert (eid e < counter s); [|lia]. apply (inv_below s HI). by eauto. }
  assert (entityComponentMap s !! eid e = None) as Hmap.
  { destruct (entityComponentMap s !! eid e) eqn:Hk; [|done].
    assert (eid e < counter s); [|lia]. apply (inv_map_below s HI). by eauto. }
  assert (removedEntityComponentMap s !! eid e = None) as Hrem.
  { destruct (removedEntityComponentMap s !! eid e) eqn:Hk; [|done].
    destruct (sep_removed_map s HS (eid e)) as [l Hl]; [by eauto|].
    congruence. }
  split; [unfold hasEntity; by rewrite Hent|].
  split; [done|].
  split; [unfold hasComponent; by rewrite Hmap|].
  split; [unfold getComponent, getComponent_removed; by rewrite Hmap, Hrem|].
  split; [by apply setComponent_inactive|].
  split; [by apply removeComponent_no_map|by apply removeEntity_inactive].
Qed.

Lemma X21_witness :
  let s := after prog_positioned in
  let ghost := mkEntity 5 7 in
  reachable s
  ∧ counter s ≤ eid ghost
  ∧ hasEntity s ghost = false
  ∧ getEntityByID s (eid ghost) = None
  ∧ hasComponent s ghost "Position" = VBool false
  ∧ getComponent s ghost "Position" = VNull
  ∧ setComponent ghost "Position" position s = Some s
  ∧ removeComponent ghost "Position" s = s
  ∧ removeEntity ghost s = s.
Proof.
  intros s ghost.
  assert (reachable s) as H0
    by (exists prog_positioned; vm_compute; reflexivity).
  assert (counter s ≤ eid ghost) as H1 by (vm_compute; lia).
  split; [exact H0|]. split; [exact H1|].
  exact (X21_unknown_entity s ghost "Position" position H0 H1).
Defined.

(** ** Components *)


(** X18: [copyField] keeps a new value that is neither [null] nor
    [undefined], also when it is falsy (0, [false], the empty string); with a
    default that is neither [null] nor [undefined] it never returns one of
    them; and chains of [copyField] associate. *)
Theorem X18_copyField_nullish (a b c : value) :
  (a ≠ VNull → a ≠ VUndefined → copyField a b = a)
  ∧ (copyField a b = VNull ∨ copyField a b = VUndefined →
     b = VNull ∨ b = VUndefined)
  ∧ copyField (copyField a b) c = copyField a (copyField b c)
  ∧ copyField (VNum 0) b = VNum 0
  ∧ copyField (VBool false) b = VBool false
  ∧ copyField (VStr "") b = VStr "".
Proof.
  split; [by destruct a|]. split;
    [destruct a; cbn; intros [?|?]; first [done|by left|by right]|].
  split; [by destruct a, b|done].
Qed.

(** X19: [copyPrimitiveArray] returns the elements of the first array
    followed by those of the second, a missing array counting as empty: no
    element is dropped, added or reordered, the lengths add up, and nested
    calls associate. *)
Theorem X19_copyPrimitiveArray_concat (a b c : option (list value)) :
  copyPrimitiveArray a b = default [] a ++ default [] b
  ∧ length (copyPrimitiveArray a b)
    = length (default [] a) + length (default [] b)
  ∧ (∀ x, x ∈ copyPrimitiveArray a b ↔ x ∈ default [] a ∨ x ∈ default [] b)
  ∧ copyPrimitiveArray a None = default [] a
  ∧ copyPrimitiveArray None b = default [] b
  ∧ copyPrimitiveArray (Some (copyPrimitiveArray a b)) c
    = copyPrimitiveArray a (Some (copyPrimitiveArray b c)).
Proof.
  assert (∀ a b, copyPrimitiveArray a b = default [] a ++ default [] b) as Heq.
  { intros [x|] [y|]; cbn; by rewrite ?app_nil_r. }
  split; [done|]. split; [by rewrite Heq, length_app|].
  split; [intros x; by rewrite Heq, elem_of_app|].
  split; [by rewrite Heq, app_nil_r|]. split; [by rewrite Heq|].
  rewrite !Heq. cbn. by rewrite (assoc_L (++)).
Qed.
